(** * Wire Motion Flipbook: value coercion, row normalisation, point series
      resolution, axis domains and point navigation

    A shallow embedding of the data engine of the flipbook page
    ([numberOrNull], [coerceRows], [computeGlobalDomains],
    [computeGlobalXDomain], [computeLocalDomains], [step], [onUpload]).

    Modelling choices.

    - A JavaScript number is an IEEE 754 binary64 value, so it is a primitive
      [float]; [+], [-], [*] and [<] are the binary64 operations, rounding,
      overflow and NaN included.  Index arithmetic of [step] stays within the
      safe integers, where binary64 is exact, and is written in [Z] with the
      remainder [%] as [Z.rem] (sign of the dividend).
    - A cell value of a parsed sheet is a [JsVal]: undefined, null, a
      boolean, a number or a string, the values [sheet_to_json] puts in a
      row.
    - A record (one row of a sheet, one series row) is only ever read and
      written by key: it is a [gmap string JsVal] of its own properties.  An
      absent key reads as [VUndef].
    - The point series store and the per-metric domains are objects that the
      code walks with [Object.values] and fills key by key: they are
      association lists in insertion order ([Obj]), which is the order of
      JavaScript for keys that are not array indices, as the point labels
      and the metric keys are.
    - [Number] applied to a string is the runtime's [StringToNumber]; the
      development takes it as a parameter.
    - [Array.prototype.sort] is a stable sort; it is written as a stable
      insertion sort. *)

From Stdlib Require Import Floats ZArith Bool Ascii String Sorted.
From stdpp Require Import base option list strings gmap.

Set Warnings "-inexact-float".
Local Open Scope float_scope.

(** ** JavaScript values *)

Inductive JsVal : Type :=
  | VUndef
  | VNull
  | VBool (b : bool)
  | VNum (n : float)
  | VStr (s : string).

(** [x == null] : true for null and undefined only. *)
Definition is_nullish (v : JsVal) : bool :=
  match v with
  | VUndef | VNull => true
  | _ => false
  end.

(** [a === b] *)
Definition strict_eq (a b : JsVal) : bool :=
  match a, b with
  | VUndef, VUndef => true
  | VNull, VNull => true
  | VBool x, VBool y => Bool.eqb x y
  | VNum x, VNum y => PrimFloat.eqb x y
  | VStr x, VStr y => String.eqb x y
  | _, _ => false
  end.

(** [a ?? b] *)
Definition coalesce (a b : JsVal) : JsVal :=
  if is_nullish a then b else a.

(** [Number.isFinite(v)] : false for every value that is not a number. *)
Definition Number_isFinite (v : JsVal) : bool :=
  match v with
  | VNum n => PrimFloat.is_finite n
  | _ => false
  end.

(** Truthiness of a number, as [x || y] tests it: 0, -0 and NaN are falsy. *)
Definition falsy (x : float) : bool :=
  PrimFloat.is_zero x || PrimFloat.is_nan x.

(** [x || y] on numbers. *)
Definition or_else (x y : float) : float :=
  if falsy x then y else x.

(** The values a normalised row holds: the missing marker or a finite number. *)
Definition coerced (v : JsVal) : Prop :=
  v = VNull \/ exists n, v = VNum n /\ PrimFloat.is_finite n = true.

(** ** Objects *)

(** A row: string keys, arbitrary cell values. *)
Abbreviation Row := (gmap string JsVal).

(** [r[k]] *)
Definition get (r : Row) (k : string) : JsVal :=
  default VUndef (r !! k).

(** An object whose keys are walked in insertion order. *)
Definition Obj (A : Type) : Type := list (string * A).

Fixpoint obj_get {A} (o : Obj A) (k : string) : option A :=
  match o with
  | [] => None
  | (k', v) :: o' => if String.eqb k k' then Some v else obj_get o' k
  end.

(** [o[k] = v] : overwrite in place, or append a new key. *)
Fixpoint obj_set {A} (o : Obj A) (k : string) (v : A) : Obj A :=
  match o with
  | [] => [(k, v)]
  | (k', v') :: o' =>
      if String.eqb k k' then (k, v) :: o' else (k', v') :: obj_set o' k v
  end.

(** [Object.values(o)] *)
Definition obj_values {A} (o : Obj A) : list A := map snd o.

(** [Object.keys(o)] *)
Definition obj_keys {A} (o : Obj A) : list string := map fst o.

(** ** Constants *)

Definition POINTS : list string :=
  ["A"; "B"; "C"; "D"; "E"; "F"; "G"; "H"; "I"; "J"; "K"]%string.

Record SeriesDef := { keyRaw : string; keySm : string; label : string }.

Record Metric := { key : string; series : list SeriesDef }.

Definition METRICS : list Metric :=
  [ {| key := "disp";
       series := [ {| keyRaw := "push_mm"; keySm := "push_mm_smooth"; label := "Push" |};
                   {| keyRaw := "slice_mm"; keySm := "slice_mm_smooth"; label := "Slice" |} ] |};
    {| key := "vel";
       series := [ {| keyRaw := "push_mm_s"; keySm := "push_mm_s_smooth"; label := "Push/s" |};
                   {| keyRaw := "slice_mm_s"; keySm := "slice_mm_s_smooth"; label := "Slice/s" |} ] |};
    {| key := "theta";
       series := [ {| keyRaw := "theta_deg"; keySm := "theta_deg_smooth"; label := "θ" |} ] |};
    {| key := "ratio";
       series := [ {| keyRaw := "ratio"; keySm := "ratio_smooth"; label := "ratio" |} ] |} ]%string.

(** ** Workbook *)

(** A sheet as [sheet_to_json] hands it over: its rows in order. *)
Definition Sheet : Type := list Row.

Record WorkBook := { Sheets : gmap string Sheet }.

Definition toArray (x : option Sheet) : list Row :=
  match x with
  | None => []
  | Some s => s
  end.

Definition getSheet (workbook : WorkBook) (name : string) : option Sheet :=
  Sheets workbook !! name.

Definition buildPointKey (p : string) : string :=
  ("per_step_" ++ p ++ "_smooth")%string.

(** ** Value coercion and row normalisation *)

(** [/t_k$/i.test(k)].  Case folding touches ASCII letters only: no
    character outside ASCII folds onto [t], [_] or [k]. *)
Definition lower (c : ascii) : ascii :=
  let n := nat_of_ascii c in
  if ((65 <=? n) && (n <=? 90))%nat then ascii_of_nat (n + 32) else c.

Fixpoint lower_string (s : string) : string :=
  match s with
  | EmptyString => EmptyString
  | String c s' => String (lower c) (lower_string s')
  end.

Definition test_t_k (k : string) : bool :=
  let n := String.length k in
  (3 <=? n)%nat && String.eqb (lower_string (substring (n - 3) 3 k)) "t_k".

Section Coercion.

(** The runtime's conversion of a string to a number. *)
Variable StringToNumber : string -> float.

(** [Number(v)] *)
Definition toNumber (v : JsVal) : float :=
  match v with
  | VUndef => nan
  | VNull => 0
  | VBool b => if b then 1 else 0
  | VNum n => n
  | VStr s => StringToNumber s
  end.

Definition numberOrNull (v : JsVal) : JsVal :=
  if strict_eq v VNull || strict_eq v VUndef || strict_eq v (VStr "")
  then VNull
  else
    let n := toNumber v in
    if PrimFloat.is_finite n then VNum n else VNull.

Definition formatTime (s : JsVal) : JsVal := numberOrNull s.

Definition coerceRow (r : Row) : Row :=
  let out : Row :=
    map_imap (fun k v =>
      Some (if test_t_k k then formatTime v else numberOrNull v)) r in
  if is_nullish (get out "t_k") && negb (is_nullish (get r "t"))
  then <["t_k"%string := numberOrNull (get r "t")]> out
  else out.

Definition coerceRows (rows : list Row) : list Row :=
  map coerceRow rows.

(** ** Sorting *)

(** [a - b] on arbitrary values. *)
Definition js_sub (a b : JsVal) : float := toNumber a - toNumber b.

(** [(a, b) => (a.t_k ?? 0) - (b.t_k ?? 0)] *)
Definition by_t_k (a b : Row) : float :=
  js_sub (coalesce (get a "t_k") (VNum 0)) (coalesce (get b "t_k") (VNum 0)).

(** [Array.prototype.sort] is stable: an element moves behind another only
    when the comparator is positive on the pair. *)
Fixpoint sort_insert (cmp : Row -> Row -> float) (a : Row) (l : list Row) : list Row :=
  match l with
  | [] => [a]
  | b :: l' => if 0 <? cmp a b then b :: sort_insert cmp a l' else a :: b :: l'
  end.

Definition sort (cmp : Row -> Row -> float) (l : list Row) : list Row :=
  foldr (sort_insert cmp) [] l.

(** ** Point series resolution *)

(** The body of the loop of [onUpload] for one point. *)
Definition seriesOf (wbLocal : WorkBook) (perStepAll : list Row) (P : string) : list Row :=
  let smoothSheet := getSheet wbLocal (buildPointKey P) in
  match smoothSheet with
  | Some _ => sort by_t_k (coerceRows (toArray smoothSheet))
  | None =>
      let rows := filter (fun r => strict_eq (get r "Point") (VStr P) = true) perStepAll in
      sort by_t_k (coerceRows rows)
  end.

Definition resolve (wbLocal : WorkBook) : Obj (list Row) :=
  let perStepAll := coerceRows (toArray (getSheet wbLocal "per_step_all")) in
  fold_left (fun grouped P => obj_set grouped P (seriesOf wbLocal perStepAll P))
            POINTS [].

End Coercion.

(** ** Axis domains *)

(** The two comparisons of a running minimum and maximum:
    [if (v < lo) lo = v; if (v > hi) hi = v]. *)
Definition min_max (v : float) (acc : float * float) : float * float :=
  let '(lo, hi) := acc in
  (if v <? lo then v else lo, if hi <? v then v else hi).

(** The guarded update [if (v != null && Number.isFinite(v)) { ... }]. *)
Definition track (v : JsVal) (acc : float * float) : float * float :=
  if negb (is_nullish v) && Number_isFinite v
  then match v with
       | VNum n => min_max n acc
       | _ => acc
       end
  else acc.

(** [m.series.forEach((s) => ...)] for one row. *)
Definition scan_series (useSmoothed : bool) (r : Row) (ss : list SeriesDef)
    (acc : float * float) : float * float :=
  fold_left (fun acc s =>
    let key := if useSmoothed then keySm s else keyRaw s in
    track (get r key) acc) ss acc.

(** The fallback and the padding that close every scan. *)
Definition padded (ratio fallbackPad : float) (dflt acc : float * float) : float * float :=
  let '(lo, hi) := acc in
  let '(lo, hi) :=
    if negb (PrimFloat.is_finite lo) || negb (PrimFloat.is_finite hi)
    then dflt else (lo, hi) in
  let pad := or_else ((hi - lo) * ratio) fallbackPad in
  (lo - pad, hi + pad).

(** [rows.forEach((r) => m.series.forEach(...))] : one point's rows. *)
Definition scan_rows (useSmoothed : bool) (m : Metric) (rows : list Row)
    (acc : float * float) : float * float :=
  fold_left (fun acc r => scan_series useSmoothed r (series m) acc) rows acc.

(** [rows.forEach((r) => { const t = r.t_k; ... })] : one point's times. *)
Definition scan_time (rows : list Row) (acc : float * float) : float * float :=
  fold_left (fun acc r => track (get r "t_k") acc) rows acc.

(** [v] leaves the bounds [acc] where they are. *)
Definition within (acc : float * float) (v : JsVal) : Prop :=
  track v acc = acc.

Definition computeGlobalDomains (pointData : Obj (list Row)) (useSmoothed : bool)
    : Obj (float * float) :=
  fold_left (fun domains m =>
    let acc :=
      fold_left (fun acc rows => scan_rows useSmoothed m rows acc)
        (obj_values pointData) (infinity, neg_infinity) in
    obj_set domains (key m) (padded 0.05 1 (-1, 1) acc))
    METRICS [].

Definition computeGlobalXDomain (pointData : Obj (list Row)) : float * float :=
  let acc :=
    fold_left (fun acc rows => scan_time rows acc)
      (obj_values pointData) (infinity, neg_infinity) in
  padded 0.02 0.01 (0, 1) acc.

Record LocalDomains := { y : Obj (float * float); x : float * float }.

(** The time bounds [tMin], [tMax] live outside the loop over the metrics
    and are revisited once per metric. *)
Definition computeLocalDomains (rows : list Row) (useSmoothed : bool) : LocalDomains :=
  let '(y, t) :=
    fold_left (fun '(y, t) m =>
      let '(t, acc) :=
        fold_left (fun '(t, acc) r =>
          let t := track (get r "t_k") t in
          let acc := scan_series useSmoothed r (series m) acc in
          (t, acc)) rows (t, (infinity, neg_infinity)) in
      (obj_set y (key m) (padded 0.05 1 (-1, 1) acc), t))
      METRICS ([], (infinity, neg_infinity)) in
  {| y := y; x := padded 0.02 0.01 (0, 1) t |}.

(** ** Flipbook state *)

(** [currentPoint] holds a point label, or undefined ([None]) once
    [POINTS[next]] has been read outside the array. *)
Record State := {
  wb : option WorkBook;
  pointSeries : Obj (list Row);
  currentPoint : option string;
  useSmoothed : bool;
  full : bool;
  lockAxes : bool
}.

Definition initialState : State :=
  {| wb := None; pointSeries := []; currentPoint := Some "A"%string;
     useSmoothed := true; full := false; lockAxes := true |}.

(** [POINTS.indexOf(p)] : the first position holding [p], else -1. *)
Fixpoint indexOf_from (i : Z) (l : list string) (p : option string) : Z :=
  match l with
  | [] => (-1)%Z
  | q :: l' =>
      if match p with Some s => String.eqb q s | None => false end
      then i else indexOf_from (i + 1)%Z l' p
  end.

Definition indexOf (l : list string) (p : option string) : Z := indexOf_from 0 l p.

(** [POINTS[i]] : undefined outside the array. *)
Definition at_index (l : list string) (i : Z) : option string :=
  if (i <? 0)%Z then None else l !! Z.to_nat i.

(** The updater that [step] hands to [setCurrentPoint]. *)
Definition step_point (delta : Z) (p : option string) : option string :=
  let idx := indexOf POINTS p in
  let next := Z.rem (idx + delta + Z.of_nat (length POINTS)) (Z.of_nat (length POINTS)) in
  at_index POINTS next.

Definition step (delta : Z) (st : State) : State :=
  {| wb := wb st; pointSeries := pointSeries st;
     currentPoint := step_point delta (currentPoint st);
     useSmoothed := useSmoothed st; full := full st; lockAxes := lockAxes st |}.

(** [pointSeries[currentPoint] ?? []] *)
Definition seriesForPoint (st : State) : list Row :=
  default [] (obj_get (pointSeries st) (default "undefined"%string (currentPoint st))).

(** [onUpload], from the parsed workbook on: [setWb] and [setPointSeries]
    are its only state writes. *)
Definition onUpload (StringToNumber : string -> float) (wbLocal : WorkBook)
    (st : State) : State :=
  {| wb := Some wbLocal; pointSeries := resolve StringToNumber wbLocal;
     currentPoint := currentPoint st;
     useSmoothed := useSmoothed st; full := full st; lockAxes := lockAxes st |}.

(** No field of the row holds a finite number. *)
Definition nothing_finite (r : Row) : Prop :=
  forall k, Number_isFinite (get r k) = false.

(** ** Sample data *)

(** An object literal. *)
Definition row (fields : list (string * JsVal)) : Row := list_to_map fields.

(** The two points of the self-test "Global domains aggregate across points". *)
Definition dA : Row :=
  row [("t_k", VNum 0); ("push_mm", VNum 0); ("slice_mm", VNum 1);
       ("push_mm_s", VNum 0); ("slice_mm_s", VNum 2);
       ("theta_deg", VNum 10); ("ratio", VNum 0.5)]%string.

Definition dB : Row :=
  row [("t_k", VNum 1); ("push_mm", VNum 5); ("slice_mm", VNum (-1));
       ("push_mm_s", VNum 3); ("slice_mm_s", VNum (-2));
       ("theta_deg", VNum (-20)); ("ratio", VNum 2)]%string.

Definition twoPoints : Obj (list Row) := [("A", [dA]); ("B", [dB])]%string.

(** One sample whose time and push displacement are 1e17: above 2^53, where
    neighbouring binary64 values are 16 apart. *)
Definition largeRows : list Row :=
  [ row [("t_k", VNum 1e17); ("push_mm", VNum 1e17)]%string ].

(** Two samples one binary64 step apart: 0.3, and 0.1 + 0.2.  The second
    row is the first one's neighbour. *)
Definition closeRows : list Row :=
  [ row [("t_k", VNum 0); ("push_mm", VNum 0.3)]%string;
    row [("t_k", VNum 1); ("push_mm", VNum (0.1 + 0.2))]%string ].

(** Two samples whose push displacements are 3e308 apart. *)
Definition wideRows : list Row :=
  [ row [("t_k", VNum 0); ("push_mm", VNum (-1.5e308))]%string;
    row [("t_k", VNum 1); ("push_mm", VNum 1.5e308)]%string ].

(** A workbook with the combined sheet only, holding one row of point A. *)
Definition combinedOnly : WorkBook :=
  {| Sheets :=
       {[ "per_step_all"%string :=
            [ row [("Point", VStr "A"); ("t_k", VNum 0); ("push_mm", VNum 1)]%string ] ]} |}.

(** [StringToNumber] on a workbook whose text cells hold no numeral: every
    such text converts to NaN. *)
Definition nonNumericText : string -> float := fun _ => nan.

(** ** The values a scan visits *)

(** The number a field contributes to a scan, if any:
    [v != null && Number.isFinite(v)]. *)
Definition finite_number (v : JsVal) : option float :=
  match v with
  | VNum n => if PrimFloat.is_finite n then Some n else None
  | _ => None
  end.

(** The finite values of one point's rows under the active keys of a metric,
    in the order the scan meets them. *)
Definition active_values (useSmoothed : bool) (m : Metric) (rows : list Row) : list float :=
  flat_map (fun r =>
    omap (fun s => finite_number (get r (if useSmoothed then keySm s else keyRaw s)))
         (series m)) rows.

(** The finite times of one point's rows. *)
Definition time_values (rows : list Row) : list float :=
  omap (fun r => finite_number (get r "t_k")) rows.

(** The bounds of a metric over the whole store, before the fallback and the
    padding. *)
Definition scan_store (useSmoothed : bool) (m : Metric) (pointData : Obj (list Row))
    : float * float :=
  fold_left (fun acc rows => scan_rows useSmoothed m rows acc)
    (obj_values pointData) (infinity, neg_infinity).

(** ** Rendering choices *)

Definition SERIES_COLORS : Obj string :=
  [("Push", "#1f77b4"); ("Slice", "#ff7f0e"); ("Push/s", "#2ca02c");
   ("Slice/s", "#d62728"); ("θ", "#9467bd"); ("ratio", "#8c564b")]%string.

Definition DEFAULT_COLORS : list string :=
  ["#1f77b4"; "#ff7f0e"; "#2ca02c"; "#d62728"; "#9467bd"; "#8c564b"]%string.

(** [SERIES_COLORS[s.label] || DEFAULT_COLORS[i % DEFAULT_COLORS.length]] :
    a missing entry and the empty string are falsy. *)
Definition stroke (s : SeriesDef) (i : nat) : option string :=
  match obj_get SERIES_COLORS (label s) with
  | Some c => if String.eqb c "" then DEFAULT_COLORS !! (i mod length DEFAULT_COLORS)
              else Some c
  | None => DEFAULT_COLORS !! (i mod length DEFAULT_COLORS)
  end.

(** The strokes of the lines of one panel: [m.series.map((s, i) => ...)]. *)
Definition panel_strokes (m : Metric) : list (option string) :=
  imap (fun i s => stroke s i) (series m).

(** [dataKey={useSmoothed ? s.keySm : s.keyRaw}] *)
Definition dataKey (useSmoothed : bool) (s : SeriesDef) : string :=
  if useSmoothed then keySm s else keyRaw s.

(** The domain handed to a y axis: a pair of numbers, or the chart's own
    choice [['auto', 'auto']]. *)
Inductive AxisDomain : Type :=
  | Numeric (d : float * float)
  | Auto.

(** [domain={lockAxes ? globalX : localDomains.x}] *)
Definition xAxisDomain (st : State) : float * float :=
  if lockAxes st then computeGlobalXDomain (pointSeries st)
  else x (computeLocalDomains (seriesForPoint st) (useSmoothed st)).

(** [(lockAxes ? domains[m.key] : localDomains.y[m.key]) ?? ['auto', 'auto']] *)
Definition yAxisDomain (st : State) (m : Metric) : AxisDomain :=
  let d :=
    if lockAxes st
    then obj_get (computeGlobalDomains (pointSeries st) (useSmoothed st)) (key m)
    else obj_get (y (computeLocalDomains (seriesForPoint st) (useSmoothed st))) (key m) in
  match d with
  | Some d => Numeric d
  | None => Auto
  end.

(** ** Events *)

(** The key handler of [useKeyNavigation], registered with
    [onPrev = step(-1)] and [onNext = step(1)]: two tests in a row. *)
Definition onKey (pressed : string) (st : State) : State :=
  let st := if String.eqb pressed "ArrowLeft" then step (-1) st else st in
  if String.eqb pressed "ArrowRight" then step 1 st else st.

Definition setUseSmoothed (b : bool) (st : State) : State :=
  {| wb := wb st; pointSeries := pointSeries st; currentPoint := currentPoint st;
     useSmoothed := b; full := full st; lockAxes := lockAxes st |}.

Definition setLockAxes (b : bool) (st : State) : State :=
  {| wb := wb st; pointSeries := pointSeries st; currentPoint := currentPoint st;
     useSmoothed := useSmoothed st; full := full st; lockAxes := b |}.

(** [setFull((v) => !v)] *)
Definition toggleFull (st : State) : State :=
  {| wb := wb st; pointSeries := pointSeries st; currentPoint := currentPoint st;
     useSmoothed := useSmoothed st; full := negb (full st); lockAxes := lockAxes st |}.

(** What the page reacts to: a key, the two arrow buttons, the three
    toggles (a [Toggle] calls back with the negation of [pressed]), and a
    workbook that has been read. *)
Inductive Event : Type :=
  | KeyDown (pressed : string)
  | PrevClicked
  | NextClicked
  | SmoothedToggled
  | LockToggled
  | FullClicked
  | Uploaded (wbLocal : WorkBook).

Definition handle (StringToNumber : string -> float) (st : State) (e : Event) : State :=
  match e with
  | KeyDown pressed => onKey pressed st
  | PrevClicked => step (-1) st
  | NextClicked => step 1 st
  | SmoothedToggled => setUseSmoothed (negb (useSmoothed st)) st
  | LockToggled => setLockAxes (negb (lockAxes st)) st
  | FullClicked => toggleFull st
  | Uploaded wbLocal => onUpload StringToNumber wbLocal st
  end.

Definition run (StringToNumber : string -> float) (events : list Event) : State :=
  fold_left (handle StringToNumber) events initialState.

(** ** Self-tests *)

Record TestResult := { name : string; ok : bool; detail : option string }.

(** [T(name, fn)] : [fn] either returns ([None]) or throws an error with a
    message; the message becomes the detail of a failure. *)
Definition T (results : list TestResult) (name : string) (fn : option string)
    : list TestResult :=
  match fn with
  | None => results ++ [ {| name := name; ok := true; detail := None |} ]
  | Some message => results ++ [ {| name := name; ok := false; detail := Some message |} ]
  end.

(** The self-tests.  The string literals of the source are written with
    no-break spaces (U+00A0) between the words, and so are they here. *)

(** "Empty data -> finite domains" *)
Definition test_empty_data : option string :=
  let local := computeLocalDomains [] true in
  match obj_get (y local) "disp" with
  | None => Some "domains missing"%string
  | Some d =>
      if negb (PrimFloat.is_finite (fst (x local))) || negb (PrimFloat.is_finite (snd (x local)))
      then Some "x domain invalid"%string
      else if negb (PrimFloat.is_finite (fst d)) || negb (PrimFloat.is_finite (snd d))
      then Some "y domain invalid"%string
      else None
  end.

(** "Global domains aggregate across points" *)
Definition test_global_domains : option string :=
  let pt : Obj (list Row) := [("A", [dA]); ("B", [dB])]%string in
  let gd := computeGlobalDomains pt false in
  match obj_get gd "disp", obj_get gd "vel", obj_get gd "theta", obj_get gd "ratio" with
  | Some disp, Some _, Some _, Some _ =>
      let dispMin := fst disp in
      let dispMax := snd disp in
      if negb ((dispMin <? 0) && (5 <? dispMax))
      then Some "disp domain not spanning data"%string
      else None
  | _, _, _, _ => Some "missing metric domain"%string
  end.

(** [Array.isArray] on the series of the current point: the entries of the
    store and the [[]] of [??] are arrays, and [seriesForPoint] has no other
    value. *)
Definition Array_isArray (value : list Row) : bool := true.

(** "seriesForPoint defined before localDomains" *)
Definition test_series_ready (st : State) : option string :=
  if negb (Array_isArray (seriesForPoint st))
  then Some "seriesForPoint not ready"%string
  else None.

(** "Series color mapping stable": the set of the colours has as many
    members as there are labels. *)
Definition test_colors : option string :=
  let labels := ["Push"; "Slice"; "Push/s"; "Slice/s"; "θ"; "ratio"]%string in
  let colors := map (fun l => obj_get SERIES_COLORS l) labels in
  if negb (length (remove_dups colors) =? length labels)%nat
  then Some "duplicate colors detected"%string
  else None.

(** The results [runSelfTests] passes to [setTestResults]. *)
Definition runSelfTests (st : State) : list TestResult :=
  let results := [] in
  let results := T results "Empty data → finite domains" test_empty_data in
  let results := T results "Global domains aggregate across points" test_global_domains in
  let results := T results "seriesForPoint defined before localDomains" (test_series_ready st) in
  let results := T results "Series color mapping stable" test_colors in
  results.

(** What every state the page can reach satisfies: the current point is a
    label of the point set, and the store is empty or has the point set as
    its keys. *)
Definition well_formed (st : State) : Prop :=
  (exists p, currentPoint st = Some p /\ In p POINTS) /\
  (pointSeries st = [] \/ obj_keys (pointSeries st) = POINTS).

(** A workbook with a sheet of its own for point A, its rows out of order,
    one cell being text. *)
Definition ownSheetA : WorkBook :=
  {| Sheets :=
       {[ "per_step_A_smooth"%string :=
            [ row [("t_k", VNum 2); ("push_mm_smooth", VStr "n/a")]%string;
              row [("t_k", VNum 1); ("push_mm_smooth", VNum 4)]%string ] ]} |}.

(** The order the comparator of [onUpload] leaves between a row and the one
    that follows it: their difference is not positive. *)
Definition not_after (StringToNumber : string -> float) (a b : Row) : Prop :=
  (0 <? by_t_k StringToNumber a b) = false.

(** A raw row whose time column is called [t] and whose displacement cell
    is text. *)
Definition rawRow : Row :=
  row [("t", VNum 3.5); ("push_mm", VStr "abc"); ("slice_mm", VNum 2)]%string.

(** The finite values of the whole store under the active keys of a
    metric, and its finite times. *)
Definition store_values (useSmoothed : bool) (m : Metric) (pointData : Obj (list Row))
    : list float :=
  flat_map (active_values useSmoothed m) (obj_values pointData).

Definition store_times (pointData : Obj (list Row)) : list float :=
  flat_map time_values (obj_values pointData).

(** [lo] and [hi] bound the values [vs] and, unless there is none, are two
    of them. *)
Definition extremes (vs : list float) (lo hi : float) : Prop :=
  Forall (fun v => (v <? lo) = false /\ (hi <? v) = false) vs /\
  (vs <> [] -> In lo vs /\ In hi vs).

(** A point whose only row holds text and a missing marker. *)
Definition noDataRows : list Row :=
  [ row [("t_k", VNull); ("push_mm", VStr "n/a")]%string ].

(** The time a row is sorted by: [r.t_k ?? 0], as a number. *)
Definition rowTime (StringToNumber : string -> float) (r : Row) : float :=
  toNumber StringToNumber (coalesce (get r "t_k") (VNum 0)).

(** Row [b] is not earlier than row [a]. *)
Definition not_earlier (StringToNumber : string -> float) (a b : Row) : Prop :=
  (rowTime StringToNumber b <? rowTime StringToNumber a) = false.

(** The binary64 values that are numbers with a finite value: the zeros,
    and the finite values in canonical form. *)
Definition real_sf (v : spec_float) : Prop :=
  match v with
  | S754_zero _ => True
  | S754_finite _ m e => canonical_mantissa prec emax m e = true
  | _ => False
  end.

(** The status line: [Object.keys(pointSeries).length ? ... : ...] chooses
    "Workbook loaded" when the store has a key. *)
Definition workbookLoaded (st : State) : bool :=
  negb (length (obj_keys (pointSeries st)) =? 0)%nat.

(** The workbook of the last upload among the events, if any. *)
Definition last_upload (events : list Event) : option WorkBook :=
  fold_left (fun last e =>
    match e with
    | Uploaded wbLocal => Some wbLocal
    | _ => last
    end) events None.

(** * Properties *)

(** ** The order of binary64 *)

Lemma SFltb_irrefl (a : spec_float) : SFltb a a = false.
Proof.
  unfold SFltb. destruct a as [s|s| |s m e]; simpl; try reflexivity.
  - destruct s; reflexivity.
  - destruct s; rewrite Z.compare_refl, Pos.compare_cont_refl; reflexivity.
Qed.

Lemma SFltb_trans (a b c : spec_float) :
  SFltb a b = true -> SFltb b c = true -> SFltb a c = true.
Proof.
  unfold SFltb.
  destruct a as [sa|sa| |sa ma ea], b as [sb|sb| |sb mb eb], c as [sc|sc| |sc mc ec];
    simpl; try discriminate; try reflexivity;
    try (destruct sa; simpl; try discriminate; try reflexivity);
    try (destruct sb; simpl; try discriminate; try reflexivity);
    try (destruct sc; simpl; try discriminate; try reflexivity).
  all: change (Pos.compare_cont Eq) with Pos.compare.
  all: destruct (Z.compare_spec ea eb), (Z.compare_spec eb ec), (Z.compare_spec ea ec);
       try discriminate; try reflexivity; try lia; subst.
  all: destruct (Pos.compare_spec ma mb), (Pos.compare_spec mb mc), (Pos.compare_spec ma mc);
       simpl; try discriminate; try reflexivity; try lia.
Qed.

Lemma ltb_irrefl (a : float) : (a <? a) = false.
Proof. rewrite ltb_spec. apply SFltb_irrefl. Qed.

Lemma ltb_trans (a b c : float) :
  (a <? b) = true -> (b <? c) = true -> (a <? c) = true.
Proof. rewrite !ltb_spec. apply SFltb_trans. Qed.

(** A finite number is neither NaN nor an infinity. *)
Lemma is_finite_not_nan (n : float) :
  PrimFloat.is_finite n = true ->
  PrimFloat.is_nan n = false /\ PrimFloat.is_infinity n = false.
Proof.
  unfold PrimFloat.is_finite. intros H.
  apply negb_true_iff, orb_false_iff in H. exact H.
Qed.

(** ** Reading a row *)

Lemma get_insert_eq (r : Row) (k : string) (v : JsVal) :
  get (<[k := v]> r) k = v.
Proof. unfold get. now rewrite lookup_insert_eq. Qed.

Lemma get_insert_ne (r : Row) (k k' : string) (v : JsVal) :
  k <> k' -> get (<[k := v]> r) k' = get r k'.
Proof. intros H. unfold get. now rewrite lookup_insert_ne. Qed.

(** ** Value coercion *)

Section CoercionFacts.

Variable StringToNumber : string -> float.

Lemma numberOrNull_cases (v : JsVal) :
  numberOrNull StringToNumber v = VNull \/
  exists n, numberOrNull StringToNumber v = VNum n /\ PrimFloat.is_finite n = true.
Proof.
  unfold numberOrNull.
  destruct (strict_eq v VNull || strict_eq v VUndef || strict_eq v (VStr "")).
  - now left.
  - destruct (PrimFloat.is_finite (toNumber StringToNumber v)) eqn:E.
    + right. eauto.
    + now left.
Qed.

(** C5: value coercion yields the missing marker or a finite number, hence
    never NaN and never an infinity; the code is a total function, so there
    is no input on which it fails.  The empty string, null and undefined
    all go to the missing marker. *)
Theorem numberOrNull_finite_or_missing :
  (forall v : JsVal,
     numberOrNull StringToNumber v = VNull \/
     exists n, numberOrNull StringToNumber v = VNum n /\
               PrimFloat.is_finite n = true /\
               PrimFloat.is_nan n = false /\
               PrimFloat.is_infinity n = false) /\
  numberOrNull StringToNumber (VStr "") = VNull /\
  numberOrNull StringToNumber VNull = VNull /\
  numberOrNull StringToNumber VUndef = VNull.
Proof.
  split; [| repeat split; reflexivity].
  intros v. destruct (numberOrNull_cases v) as [H | (n & H & Hf)].
  - now left.
  - right. exists n. split; [exact H |]. split; [exact Hf |].
    apply is_finite_not_nan, Hf.
Qed.

(** ** Row normalisation *)

Lemma numberOrNull_coerced (v : JsVal) : coerced (numberOrNull StringToNumber v).
Proof. apply numberOrNull_cases. Qed.

Lemma numberOrNull_fix (v : JsVal) :
  coerced v -> numberOrNull StringToNumber v = v.
Proof.
  intros [-> | (n & -> & Hf)]; [reflexivity |].
  unfold numberOrNull. simpl. now rewrite Hf.
Qed.

Lemma numberOrNull_nullish (v : JsVal) :
  is_nullish v = true -> numberOrNull StringToNumber v = VNull.
Proof. destruct v; simpl; try discriminate; reflexivity. Qed.

(** Both branches of the key test run the same coercion. *)
Lemma coerce_fields (r : Row) :
  map_imap (fun k v =>
    Some (if test_t_k k then formatTime StringToNumber v
          else numberOrNull StringToNumber v)) r
  = numberOrNull StringToNumber <$> r.
Proof.
  apply map_eq. intros k.
  rewrite map_lookup_imap, lookup_fmap.
  destruct (r !! k); simpl; [| reflexivity].
  unfold formatTime. now destruct (test_t_k k).
Qed.

Lemma get_fmap (r : Row) (k : string) :
  get (numberOrNull StringToNumber <$> r) k =
  match r !! k with
  | Some v => numberOrNull StringToNumber v
  | None => VUndef
  end.
Proof. unfold get. rewrite lookup_fmap. now destruct (r !! k). Qed.

Lemma coerceRow_coerced (r : Row) (k : string) (v : JsVal) :
  coerceRow StringToNumber r !! k = Some v -> coerced v.
Proof.
  unfold coerceRow. cbv zeta. rewrite coerce_fields.
  destruct (_ && _).
  - destruct (decide (k = "t_k"%string)) as [-> | Hk].
    + rewrite lookup_insert_eq. intros [= <-]. apply numberOrNull_coerced.
    + rewrite lookup_insert_ne by congruence.
      rewrite lookup_fmap. destruct (r !! k); simpl; [| discriminate].
      intros [= <-]. apply numberOrNull_coerced.
  - rewrite lookup_fmap. destruct (r !! k); simpl; [| discriminate].
    intros [= <-]. apply numberOrNull_coerced.
Qed.

(** On a normalised row the fallback from [t] never fires again. *)
Lemma coerceRow_no_second_fallback (r : Row) :
  let r1 := coerceRow StringToNumber r in
  is_nullish (get r1 "t_k") && negb (is_nullish (get r1 "t")) = false.
Proof.
  unfold coerceRow. cbv zeta. rewrite coerce_fields.
  destruct (is_nullish (get (numberOrNull StringToNumber <$> r) "t_k")) eqn:Hk;
    simpl.
  - destruct (is_nullish (get r "t")) eqn:Ht; simpl.
    + rewrite Hk. simpl. apply negb_false_iff.
      rewrite get_fmap. unfold get in Ht.
      destruct (r !! "t"%string) as [w |]; simpl in *; [| reflexivity].
      now rewrite numberOrNull_nullish.
    + rewrite get_insert_eq, get_insert_ne by discriminate.
      rewrite get_fmap. unfold get in Ht |- *.
      destruct (r !! "t"%string) as [w |]; simpl in *; [| discriminate].
      apply andb_negb_r.
  - now rewrite Hk.
Qed.

Lemma coerceRow_idem (r : Row) :
  coerceRow StringToNumber (coerceRow StringToNumber r) = coerceRow StringToNumber r.
Proof.
  pose proof (coerceRow_no_second_fallback r) as Hn. cbv zeta in Hn.
  assert (Hfix : numberOrNull StringToNumber <$> coerceRow StringToNumber r
                 = coerceRow StringToNumber r).
  { apply map_eq. intros k. rewrite lookup_fmap.
    destruct (coerceRow StringToNumber r !! k) as [v |] eqn:E; simpl; [| reflexivity].
    f_equal. apply numberOrNull_fix. exact (coerceRow_coerced r k v E). }
  unfold coerceRow at 1. cbv zeta. rewrite coerce_fields, Hfix, Hn. reflexivity.
Qed.

(** C10: row normalisation is idempotent.  Normalising normalised rows
    gives back the same rows, key for key and value for value, and so does
    normalising any selection of them, which is what the resolver does with
    the rows it keeps from the combined sheet. *)
Theorem coerceRows_idempotent :
  forall rows : list Row,
    coerceRows StringToNumber (coerceRows StringToNumber rows)
      = coerceRows StringToNumber rows /\
    forall keep : Row -> bool,
      coerceRows StringToNumber (List.filter keep (coerceRows StringToNumber rows))
        = List.filter keep (coerceRows StringToNumber rows).
Proof.
  intros rows. unfold coerceRows. split.
  - rewrite map_map. apply map_ext. intros r. apply coerceRow_idem.
  - intros keep. induction rows as [| r rows IH]; [reflexivity |].
    simpl. destruct (keep (coerceRow StringToNumber r)); [| exact IH].
    simpl. now rewrite coerceRow_idem, IH.
Qed.

(** ** Point series resolution *)

(** A normalised row holds no string, so its [Point] field is never
    strictly equal to a point label. *)
Lemma coerced_Point_mismatch (r : Row) (P : string) :
  strict_eq (get (coerceRow StringToNumber r) "Point") (VStr P) = false.
Proof.
  unfold get.
  destruct (coerceRow StringToNumber r !! "Point"%string) as [v |] eqn:E;
    simpl; [| reflexivity].
  destruct (coerceRow_coerced r _ v E) as [-> | (n & -> & _)]; reflexivity.
Qed.

Lemma filter_Point_nil (rows : list Row) (P : string) :
  filter (fun r => strict_eq (get r "Point") (VStr P) = true)
         (coerceRows StringToNumber rows) = [].
Proof.
  unfold coerceRows. induction rows as [| r rows IH]; [reflexivity |].
  rewrite map_cons, filter_cons. case_decide as H; [| exact IH].
  rewrite coerced_Point_mismatch in H. discriminate.
Qed.

Lemma resolve_entries (wbLocal : WorkBook) :
  resolve StringToNumber wbLocal =
  map (fun P =>
         (P, seriesOf StringToNumber wbLocal
               (coerceRows StringToNumber (toArray (getSheet wbLocal "per_step_all"))) P))
      POINTS.
Proof. reflexivity. Qed.

Lemma resolve_get (wbLocal : WorkBook) (P : string) :
  In P POINTS ->
  obj_get (resolve StringToNumber wbLocal) P =
  Some (seriesOf StringToNumber wbLocal
          (coerceRows StringToNumber (toArray (getSheet wbLocal "per_step_all"))) P).
Proof.
  rewrite resolve_entries. unfold POINTS. simpl.
  intros H. repeat (destruct H as [<- | H]; [reflexivity |]). destruct H.
Qed.

(** C1: what the code does on the fall-back path.  For a point without a
    sheet of its own, the rows kept from the combined sheet are chosen
    after normalisation, when every [Point] field is already the missing
    marker or a number; no row passes, and the series of the point is
    empty whatever the combined sheet holds. *)
Theorem fallback_series_empty (wbLocal : WorkBook) (P : string) :
  In P POINTS ->
  getSheet wbLocal (buildPointKey P) = None ->
  obj_get (resolve StringToNumber wbLocal) P = Some [].
Proof.
  intros HP Hno. rewrite (resolve_get wbLocal P HP).
  unfold seriesOf. rewrite Hno. now rewrite filter_Point_nil.
Qed.

(** C8: loading a workbook replaces the store as a whole.  The new store
    has the eleven points as its keys, each mapped to the series resolved
    from the new workbook; it is the same whatever the state before, so
    nothing of an earlier store is left in it; the current point and the
    smoothed, locked and full-screen flags are kept. *)
Theorem onUpload_replaces_store (wbLocal : WorkBook) (st : State) :
  let st' := onUpload StringToNumber wbLocal st in
  pointSeries st' = resolve StringToNumber wbLocal /\
  obj_keys (pointSeries st') = POINTS /\
  Forall (fun P =>
    obj_get (pointSeries st') P =
    Some (seriesOf StringToNumber wbLocal
            (coerceRows StringToNumber (toArray (getSheet wbLocal "per_step_all"))) P))
    POINTS /\
  (forall k, ~ In k POINTS -> obj_get (pointSeries st') k = None) /\
  (forall st0 : State,
     pointSeries (onUpload StringToNumber wbLocal st0) = pointSeries st') /\
  currentPoint st' = currentPoint st /\
  useSmoothed st' = useSmoothed st /\
  lockAxes st' = lockAxes st /\
  full st' = full st.
Proof.
  cbv zeta. unfold onUpload.
  cbn [pointSeries currentPoint useSmoothed lockAxes full].
  split; [reflexivity |]. split; [reflexivity |]. split; [| split].
  - apply Forall_forall. intros P HP. apply resolve_get.
    apply list_elem_of_In. exact HP.
  - intros k Hk. rewrite resolve_entries. unfold POINTS in *. simpl in *.
    repeat match goal with
    | |- context [String.eqb k ?q] =>
        destruct (String.eqb_spec k q) as [-> | _]; [exfalso; apply Hk; tauto |]
    end.
    reflexivity.
  - repeat split.
Qed.

End CoercionFacts.

(** The workbook with the combined sheet only: the row of point A is lost. *)
Lemma fallback_series_empty_witness :
  In "A"%string POINTS /\
  getSheet combinedOnly (buildPointKey "A") = None /\
  obj_get (resolve nonNumericText combinedOnly) "A" = Some [].
Proof.
  split; [simpl; tauto |]. split; [reflexivity |].
  apply (fallback_series_empty nonNumericText combinedOnly "A");
    [simpl; tauto | reflexivity].
Defined.

(** ** Scanning for a minimum and a maximum *)

Lemma min_max_fixed (n : float) (acc : float * float) :
  min_max n acc = acc <-> (n <? fst acc) = false /\ (snd acc <? n) = false.
Proof.
  destruct acc as [lo hi]. unfold min_max. simpl. split.
  - intros [= Hlo Hhi]. split.
    + destruct (n <? lo) eqn:E; [| reflexivity].
      subst. now rewrite ltb_irrefl in E.
    + destruct (hi <? n) eqn:E; [| reflexivity].
      subst. now rewrite ltb_irrefl in E.
  - intros [-> ->]. reflexivity.
Qed.

(** A second visit of the same value changes nothing. *)
Lemma min_max_again (n : float) (acc : float * float) :
  min_max n (min_max n acc) = min_max n acc.
Proof.
  apply min_max_fixed. destruct acc as [lo hi]. unfold min_max. simpl. split.
  - destruct (n <? lo) eqn:E; [apply ltb_irrefl | exact E].
  - destruct (hi <? n) eqn:E; [apply ltb_irrefl | exact E].
Qed.

(** Bounds that already cover [n] still cover it after another value. *)
Lemma min_max_covered (n m : float) (acc : float * float) :
  min_max n acc = acc -> min_max n (min_max m acc) = min_max m acc.
Proof.
  rewrite !min_max_fixed. destruct acc as [lo hi]. unfold min_max. simpl.
  intros [Hlo Hhi]. split.
  - destruct (m <? lo) eqn:E; [| exact Hlo].
    destruct (n <? m) eqn:E'; [| reflexivity].
    now rewrite (ltb_trans n m lo E' E) in Hlo.
  - destruct (hi <? m) eqn:E; [| exact Hhi].
    destruct (m <? n) eqn:E'; [| reflexivity].
    now rewrite (ltb_trans hi m n E E') in Hhi.
Qed.

(** The guarded update either is the two comparisons or does nothing. *)
Lemma track_cases (v : JsVal) :
  (exists n, forall acc, track v acc = min_max n acc) \/
  (forall acc, track v acc = acc).
Proof.
  unfold track.
  destruct (negb (is_nullish v) && Number_isFinite v); [| now right].
  destruct v; try now right. left. now exists n.
Qed.

Lemma track_again (v : JsVal) (acc : float * float) : within (track v acc) v.
Proof.
  unfold within. destruct (track_cases v) as [[n H] | H]; rewrite !H.
  - apply min_max_again.
  - reflexivity.
Qed.

Lemma track_covered (v w : JsVal) (acc : float * float) :
  within acc v -> within (track w acc) v.
Proof.
  unfold within.
  destruct (track_cases v) as [[n Hv] | Hv]; rewrite !Hv; [| reflexivity].
  destruct (track_cases w) as [[m Hw] | Hw]; rewrite !Hw; [| tauto].
  apply min_max_covered.
Qed.

Lemma scan_time_covered (rows : list Row) (acc : float * float) (v : JsVal) :
  within acc v -> within (scan_time rows acc) v.
Proof.
  revert acc. induction rows as [| r rows IH]; intros acc H; [exact H |].
  apply IH, track_covered, H.
Qed.

Lemma scan_time_cons (r : Row) (rows : list Row) (acc : float * float) :
  scan_time (r :: rows) acc = scan_time rows (track (get r "t_k") acc).
Proof. reflexivity. Qed.

Lemma scan_time_covers (rows : list Row) (acc : float * float) :
  Forall (fun r => within (scan_time rows acc) (get r "t_k")) rows.
Proof.
  revert acc. induction rows as [| r rows IH]; intros acc; constructor;
    rewrite scan_time_cons.
  - apply scan_time_covered, track_again.
  - apply IH.
Qed.

Lemma scan_time_fixed (rows : list Row) (acc : float * float) :
  Forall (fun r => within acc (get r "t_k")) rows -> scan_time rows acc = acc.
Proof.
  induction 1 as [| r rows Hr _ IH]; [reflexivity |].
  rewrite scan_time_cons. unfold within in Hr. rewrite Hr. exact IH.
Qed.

(** Walking the same rows again leaves the time bounds where they are. *)
Lemma scan_time_again (rows : list Row) (acc : float * float) :
  scan_time rows (scan_time rows acc) = scan_time rows acc.
Proof. apply scan_time_fixed, scan_time_covers. Qed.

(** ** Local and global domains *)

(** The loop of the local computation over the rows keeps two independent
    pairs of bounds: the times and the values of the metric. *)
Lemma local_rows (s : bool) (m : Metric) (rows : list Row) (t acc : float * float) :
  fold_left (fun '(t, acc) r =>
               let t := track (get r "t_k") t in
               let acc := scan_series s r (series m) acc in
               (t, acc)) rows (t, acc)
  = (scan_time rows t, scan_rows s m rows acc).
Proof.
  revert t acc. induction rows as [| r rows IH]; intros t acc; [reflexivity |].
  simpl fold_left at 1. rewrite IH. reflexivity.
Qed.

Lemma local_metrics (s : bool) (rows : list Row) (ms : list Metric)
    (y0 : Obj (float * float)) (t0 : float * float) :
  fold_left (fun '(y, t) m =>
      let '(t, acc) :=
        fold_left (fun '(t, acc) r =>
          let t := track (get r "t_k") t in
          let acc := scan_series s r (series m) acc in
          (t, acc)) rows (t, (infinity, neg_infinity)) in
      (obj_set y (key m) (padded 0.05 1 (-1, 1) acc), t))
    ms (y0, t0)
  = (fold_left (fun y m =>
       obj_set y (key m)
         (padded 0.05 1 (-1, 1) (scan_rows s m rows (infinity, neg_infinity))))
       ms y0,
     Nat.iter (length ms) (scan_time rows) t0).
Proof.
  revert y0 t0. induction ms as [| m ms IH]; intros y0 t0; [reflexivity |].
  simpl fold_left at 1. rewrite local_rows, IH.
  simpl length. rewrite Nat.iter_succ_r. reflexivity.
Qed.

Lemma scan_time_iter (n : nat) (rows : list Row) (acc : float * float) :
  Nat.iter (S n) (scan_time rows) acc = scan_time rows acc.
Proof.
  induction n as [| n IH]; [reflexivity |].
  rewrite Nat.iter_succ, IH. apply scan_time_again.
Qed.

(** C9: on the store that holds one point, the global computations are the
    local one: the per-metric domains of [computeLocalDomains] are those of
    [computeGlobalDomains], and its time domain is that of
    [computeGlobalXDomain], although the local code walks the times once per
    metric. *)
Theorem local_is_global_on_singleton :
  forall (rows : list Row) (s : bool) (P : string),
    obj_set [] P rows = [(P, rows)] /\
    y (computeLocalDomains rows s) = computeGlobalDomains [(P, rows)] s /\
    x (computeLocalDomains rows s) = computeGlobalXDomain [(P, rows)].
Proof.
  intros rows s P. split; [reflexivity |].
  unfold computeLocalDomains. rewrite local_metrics. cbn [y x]. split.
  - reflexivity.
  - unfold computeGlobalXDomain. cbn [obj_values map snd fold_left].
    f_equal. exact (scan_time_iter 3 rows (infinity, neg_infinity)).
Qed.

(** C2: the claimed intervals are not what the code returns on no rows:
    the time domain is not [-0.01, 1.01] and no metric has [-2, 2]. *)
Lemma empty_local_domains_not_as_claimed :
  x (computeLocalDomains [] true) <> (-0.01, 1.01) /\
  Forall (fun m => obj_get (y (computeLocalDomains [] true)) (key m) <> Some (-2, 2))
         METRICS.
Proof.
  split; [vm_compute; discriminate |].
  repeat constructor; vm_compute; discriminate.
Qed.

(** C2, as the code has it: on no rows, the fallback bounds are padded by
    their own span.  The time domain is [0, 1] widened on each side by 0.02,
    which is 2% of its span 1, that is [-0.02, 1.02]; every metric has
    [-1, 1] widened on each side by 0.1, which is 5% of its span 2, that is
    [-1.1, 1.1].  Both products are truthy, so [||] keeps them.  Before any
    upload the series of the current point is such an empty sequence. *)
Theorem empty_local_domains :
  seriesForPoint initialState = [] /\
  (forall s : bool,
     computeLocalDomains [] s =
     {| y := [("disp", (-1.1, 1.1)); ("vel", (-1.1, 1.1));
              ("theta", (-1.1, 1.1)); ("ratio", (-1.1, 1.1))]%string;
        x := (-0.02, 1.02) |}) /\
  or_else ((1 - 0) * 0.02) 0.01 = 0.02 /\
  (0 - 0.02, 1 + 0.02) = (-0.02, 1.02) /\
  or_else ((1 - -1) * 0.05) 1 = 0.1 /\
  (-1 - 0.1, 1 + 0.1) = (-1.1, 1.1).
Proof.
  split; [reflexivity |]. split; [intros [|]; vm_compute; reflexivity |].
  repeat split; vm_compute; reflexivity.
Qed.

(** ** The fallback domains *)

Lemma track_skip (v : JsVal) (acc : float * float) :
  Number_isFinite v = false -> track v acc = acc.
Proof. intros H. unfold track. rewrite H, andb_false_r. reflexivity. Qed.

Lemma scan_series_skip (s : bool) (r : Row) (ss : list SeriesDef) (acc : float * float) :
  nothing_finite r -> scan_series s r ss acc = acc.
Proof.
  intros H. unfold scan_series.
  induction ss as [| sd ss IH]; [reflexivity |].
  simpl. rewrite track_skip by apply H. exact IH.
Qed.

Lemma scan_rows_skip (s : bool) (m : Metric) (rows : list Row) (acc : float * float) :
  Forall nothing_finite rows -> scan_rows s m rows acc = acc.
Proof.
  unfold scan_rows. induction 1 as [| r rows Hr _ IH]; [reflexivity |].
  simpl. rewrite scan_series_skip by exact Hr. exact IH.
Qed.

Lemma scan_time_skip (rows : list Row) (acc : float * float) :
  Forall nothing_finite rows -> scan_time rows acc = acc.
Proof.
  induction 1 as [| r rows Hr _ IH]; [reflexivity |].
  rewrite scan_time_cons, track_skip by apply Hr. exact IH.
Qed.

(** Where no row holds a finite number (no rows at all, or every field
    missing), each computation returns the padded fallback: [-1.1, 1.1] for
    every metric and [-0.02, 1.02] for the time. *)
Lemma domains_without_finite_values (pointData : Obj (list Row)) (s : bool) :
  Forall (Forall nothing_finite) (obj_values pointData) ->
  computeGlobalDomains pointData s
    = [("disp", (-1.1, 1.1)); ("vel", (-1.1, 1.1));
       ("theta", (-1.1, 1.1)); ("ratio", (-1.1, 1.1))]%string /\
  computeGlobalXDomain pointData = (-0.02, 1.02) /\
  Forall (fun rows =>
            computeLocalDomains rows s =
            {| y := [("disp", (-1.1, 1.1)); ("vel", (-1.1, 1.1));
                     ("theta", (-1.1, 1.1)); ("ratio", (-1.1, 1.1))]%string;
               x := (-0.02, 1.02) |})
         (obj_values pointData).
Proof.
  intros H.
  assert (Hskip : forall (f : list Row -> float * float -> float * float) acc,
    (forall rows acc, Forall nothing_finite rows -> f rows acc = acc) ->
    fold_left (fun acc rows => f rows acc) (obj_values pointData) acc = acc).
  { intros f acc Hf. revert acc.
    induction H as [| rows l Hrows _ IH]; intros acc; [reflexivity |].
    simpl. rewrite Hf by exact Hrows. apply IH. }
  assert (Hy : forall m acc,
    fold_left (fun acc rows => scan_rows s m rows acc) (obj_values pointData) acc = acc).
  { intros m acc. apply (Hskip (scan_rows s m)). apply scan_rows_skip. }
  assert (Ht : forall acc,
    fold_left (fun acc rows => scan_time rows acc) (obj_values pointData) acc = acc).
  { intros acc. apply (Hskip scan_time). apply scan_time_skip. }
  split; [| split].
  - unfold computeGlobalDomains, METRICS. cbn [fold_left key]. rewrite !Hy.
    vm_compute. reflexivity.
  - unfold computeGlobalXDomain. rewrite Ht. vm_compute. reflexivity.
  - apply Forall_forall. intros rows Hin.
    assert (Hrows : Forall nothing_finite rows).
    { rewrite Forall_forall in H. apply H, Hin. }
    unfold computeLocalDomains. rewrite local_metrics.
    unfold METRICS. cbn [fold_left length Nat.iter nat_rect key].
    rewrite !scan_rows_skip, !scan_time_skip by exact Hrows.
    vm_compute. reflexivity.
Qed.

(** C3: the domains computed from finite samples can be degenerate or
    infinite.  The rows below are rows as normalisation returns them.  With
    a single sample at 1e17 the pad (1 for the metric, 0.01 for the time) is
    absorbed by rounding: the global metric domain, the global time domain
    and both local domains are the one-point interval [1e17, 1e17], whose
    low end is not below its high end.  With two samples 3e308 apart the
    span overflows and the displacement domain, global and local, is
    [-infinity, +infinity]. *)
Theorem domains_degenerate_or_infinite :
  (forall StringToNumber,
     coerceRows StringToNumber largeRows = largeRows /\
     coerceRows StringToNumber wideRows = wideRows) /\
  Forall (fun d : float * float => d = (1e17, 1e17) /\ (fst d <? snd d) = false)
    [ default (0, 0) (obj_get (computeGlobalDomains [("A"%string, largeRows)] false) "disp");
      computeGlobalXDomain [("A"%string, largeRows)];
      default (0, 0) (obj_get (y (computeLocalDomains largeRows false)) "disp");
      x (computeLocalDomains largeRows false) ] /\
  Forall (fun d : float * float =>
            d = (neg_infinity, infinity) /\
            PrimFloat.is_finite (fst d) = false /\
            PrimFloat.is_finite (snd d) = false)
    [ default (0, 0) (obj_get (computeGlobalDomains [("A"%string, wideRows)] false) "disp");
      default (0, 0) (obj_get (y (computeLocalDomains wideRows false)) "disp") ].
Proof.
  split; [intros f; split; vm_compute; reflexivity |].
  split; repeat constructor; vm_compute; reflexivity.
Qed.

(** C4: the padded global domain need not leave a margin.  In the
    two-point scenario the raw displacement domain is [-1.3, 5.3], below 0
    and above 5.  With the samples 0.3 and 0.1 + 0.2, one binary64 step
    apart, the pad of 5% of the span is absorbed by rounding: the
    displacement domain starts at the minimum 0.3 and ends at the maximum.
    With the single sample 1e17 the fixed pad 1 is absorbed in the same
    way. *)
Theorem global_domain_margin :
  (exists low high,
     obj_get (computeGlobalDomains twoPoints false) "disp" = Some (low, high) /\
     (low, high) = (-1.3, 5.3) /\
     (low <? 0) = true /\ (5 <? high) = true) /\
  (exists low high,
     obj_get (computeGlobalDomains [("A"%string, closeRows)] false) "disp"
       = Some (low, high) /\
     map (fun r => (get r "push_mm", get r "slice_mm")) closeRows
       = [(VNum 0.3, VUndef); (VNum (0.1 + 0.2), VUndef)] /\
     (0.3 <? 0.1 + 0.2) = true /\
     (low <? 0.3) = false /\ (0.1 + 0.2 <? high) = false) /\
  (exists low high,
     obj_get (computeGlobalDomains [("A"%string, largeRows)] false) "disp"
       = Some (low, high) /\
     map (fun r => (get r "push_mm", get r "slice_mm")) largeRows
       = [(VNum 1e17, VUndef)] /\
     (low <? 1e17) = false /\ (1e17 <? high) = false).
Proof.
  split; [| split].
  - exists (-1.3), 5.3. repeat split; vm_compute; reflexivity.
  - exists 0.3, (0.1 + 0.2). repeat split; vm_compute; reflexivity.
  - exists 1e17, 1e17. repeat split; vm_compute; reflexivity.
Qed.

(** ** Navigation *)

Lemma step_iter (n : nat) (delta : Z) (st : State) :
  Nat.iter n (step delta) st =
  {| wb := wb st; pointSeries := pointSeries st;
     currentPoint := Nat.iter n (step_point delta) (currentPoint st);
     useSmoothed := useSmoothed st; full := full st; lockAxes := lockAxes st |}.
Proof.
  induction n as [| n IH]; [now destruct st |].
  rewrite !Nat.iter_succ, IH. reflexivity.
Qed.




(** C7: single steps act as a cycle on the point set.  From any of the
    eleven points, eleven steps forward come back to it, and a step back
    undoes a step forward, in either order; the rest of the state is not
    touched. *)
Theorem step_cyclic (st : State) (p : string) :
  currentPoint st = Some p ->
  In p POINTS ->
  Nat.iter (length POINTS) (step 1) st = st /\
  step (-1) (step 1 st) = st /\
  step 1 (step (-1) st) = st.
Proof.
  intros Hcur Hp. rewrite step_iter. destruct st as [w ps cp sm fu lk].
  cbn [currentPoint] in Hcur. subst cp. unfold step. cbn -[step_point POINTS].
  unfold POINTS in Hp. simpl in Hp.
  repeat (destruct Hp as [<- | Hp]; [repeat split; reflexivity |]).
  destruct Hp.
Qed.

(** The cycle through the first point. *)
Lemma step_cyclic_witness :
  currentPoint initialState = Some "A"%string /\
  In "A"%string POINTS /\
  Nat.iter (length POINTS) (step 1) initialState = initialState /\
  step (-1) (step 1 initialState) = initialState /\
  step 1 (step (-1) initialState) = initialState.
Proof.
  split; [reflexivity |]. split; [simpl; tauto |].
  apply (step_cyclic initialState "A"); [reflexivity | simpl; tauto].
Defined.

(** ** Points and their indices *)

Lemma at_index_cases (i : Z) :
  (0 <= i < 11)%Z ->
  exists p, at_index POINTS i = Some p /\ In p POINTS /\
            indexOf POINTS (Some p) = i.
Proof.
  intros Hi.
  assert (H : (i = 0 \/ i = 1 \/ i = 2 \/ i = 3 \/ i = 4 \/ i = 5 \/ i = 6 \/
               i = 7 \/ i = 8 \/ i = 9 \/ i = 10)%Z) by lia.
  repeat (destruct H as [-> | H];
          [eexists; split; [reflexivity |]; split; [simpl; tauto | reflexivity] |]).
  subst i. eexists; split; [reflexivity |]; split; [simpl; tauto | reflexivity].
Qed.

Lemma indexOf_range (p : string) :
  In p POINTS ->
  (0 <= indexOf POINTS (Some p) < 11)%Z /\
  at_index POINTS (indexOf POINTS (Some p)) = Some p.
Proof.
  unfold POINTS. simpl.
  intros H. repeat (destruct H as [<- | H]; [split; [vm_compute; split; [discriminate | reflexivity] | reflexivity] |]).
  destruct H.
Qed.

Lemma indexOf_from_absent (l : list string) (i : Z) (p : string) :
  ~ In p l -> indexOf_from i l (Some p) = (-1)%Z.
Proof.
  revert i. induction l as [| q l IH]; intros i Hp; [reflexivity |].
  simpl. destruct (String.eqb_spec q p) as [-> | _].
  - exfalso. apply Hp. now left.
  - apply IH. intros H. apply Hp. now right.
Qed.

(** The new point after a step that does not drive the sum below zero. *)
Lemma step_point_mod (delta : Z) (p : option string) :
  (0 <= indexOf POINTS p + delta + 11)%Z ->
  step_point delta p = at_index POINTS ((indexOf POINTS p + delta) mod 11).
Proof.
  intros Hlo. unfold step_point.
  change (Z.of_nat (length POINTS)) with 11%Z.
  rewrite Z.rem_mod_nonneg by lia.
  replace (indexOf POINTS p + delta + 11)%Z
    with (indexOf POINTS p + delta + 1 * 11)%Z by lia.
  now rewrite Z_mod_plus_full.
Qed.

Lemma indexOf_lower (p : option string) : (-1 <= indexOf POINTS p)%Z.
Proof.
  destruct p as [p |]; [| vm_compute; discriminate].
  destruct (in_dec String.string_dec p POINTS) as [Hin | Hout].
  - pose proof (indexOf_range p Hin). lia.
  - unfold indexOf. rewrite indexOf_from_absent by exact Hout. lia.
Qed.

(** X1: Labels and positions determine each other.  A position inside the
    array holds a label of the point set whose first occurrence is that
    position, and reading the array at the index of a label gives the label
    back; a label outside the point set has index -1. *)
Theorem point_index_round_trip (i : Z) :
  (0 <= i < 11)%Z ->
  (exists p, at_index POINTS i = Some p /\ In p POINTS /\
             indexOf POINTS (at_index POINTS i) = i /\
             at_index POINTS (indexOf POINTS (Some p)) = Some p) /\
  (forall q, ~ In q POINTS -> indexOf POINTS (Some q) = (-1)%Z) /\
  indexOf POINTS None = (-1)%Z /\
  at_index POINTS (-1) = None /\
  at_index POINTS 11 = None.
Proof.
  intros Hi. split; [| split; [| repeat split]].
  - destruct (at_index_cases i Hi) as (p & Hp & Hin & Hidx).
    exists p. rewrite Hp, Hidx. repeat split; trivial.
  - intros q Hq. apply indexOf_from_absent, Hq.
Qed.

(** Position 3, which holds D. *)
Lemma point_index_round_trip_witness :
  (0 <= 3 < 11)%Z /\
  (exists p, at_index POINTS 3 = Some p /\ In p POINTS /\
             indexOf POINTS (at_index POINTS 3) = 3%Z /\
             at_index POINTS (indexOf POINTS (Some p)) = Some p).
Proof.
  split; [lia |]. apply (point_index_round_trip 3). lia.
Defined.

(** ** Steps in a row *)





(** X3: When the current point is undefined or not a label of the set, its
    index is -1 and a step moves from there: one step forward gives the
    first point A, one step back gives J, the last point but one. *)
Theorem step_from_outside (delta : Z) (st : State) :
  (forall p, currentPoint st = Some p -> ~ In p POINTS) ->
  (-10 <= delta <= 9007199254740970)%Z ->
  currentPoint (step delta st) = at_index POINTS ((delta - 1) mod 11) /\
  exists q, currentPoint (step delta st) = Some q /\ In q POINTS.
Proof.
  intros Hout [Hlo _].
  assert (Hidx : indexOf POINTS (currentPoint st) = (-1)%Z).
  { destruct (currentPoint st) as [p |]; [| reflexivity].
    apply indexOf_from_absent, Hout. reflexivity. }
  assert (Heq : currentPoint (step delta st) = at_index POINTS ((delta - 1) mod 11)).
  { unfold step. cbn [currentPoint]. rewrite step_point_mod by (rewrite Hidx; lia).
    rewrite Hidx. f_equal. f_equal. lia. }
  split; [exact Heq |].
  destruct (at_index_cases ((delta - 1) mod 11)) as (q & Hq & Hin & _).
  { apply Z.mod_pos_bound. lia. }
  exists q. split; [congruence | exact Hin].
Qed.

(** Twelve steps back from A leave the point undefined; the next step
    forward gives A again, the next step back would give J. *)
Lemma step_from_outside_witness :
  (forall p, currentPoint (step (-12) initialState) = Some p -> ~ In p POINTS) /\
  currentPoint (step 1 (step (-12) initialState)) = Some "A"%string /\
  currentPoint (step (-1) (step (-12) initialState)) = Some "J"%string.
Proof.
  assert (H : forall p, currentPoint (step (-12) initialState) = Some p -> ~ In p POINTS)
    by (intros p Hp; vm_compute in Hp; discriminate).
  split; [exact H |]. split.
  - exact (proj1 (step_from_outside 1 (step (-12) initialState) H ltac:(lia))).
  - exact (proj1 (step_from_outside (-1) (step (-12) initialState) H ltac:(lia))).
Defined.

(** ** Reachable states *)

Lemma well_formed_step (delta : Z) (st : State) :
  (-11 <= delta)%Z -> well_formed st -> well_formed (step delta st).
Proof.
  intros Hd [(p & Hcur & Hp) Hstore]. split; [| exact Hstore].
  unfold step. cbn [currentPoint]. rewrite Hcur.
  destruct (indexOf_range p Hp) as [Hidx _].
  rewrite step_point_mod by lia.
  destruct (at_index_cases ((indexOf POINTS (Some p) + delta) mod 11))
    as (q & Hq & Hin & _); [apply Z.mod_pos_bound; lia |].
  exists q. split; assumption.
Qed.

Lemma well_formed_handle (StringToNumber : string -> float) (st : State) (e : Event) :
  well_formed st -> well_formed (handle StringToNumber st e).
Proof.
  intros Hst. destruct e as [pressed | | | | | | wbLocal]; simpl.
  - unfold onKey. destruct (String.eqb pressed "ArrowLeft");
      destruct (String.eqb pressed "ArrowRight");
      repeat apply well_formed_step; try lia; exact Hst.
  - apply well_formed_step; [lia | exact Hst].
  - apply well_formed_step; [lia | exact Hst].
  - exact Hst.
  - exact Hst.
  - exact Hst.
  - destruct Hst as [Hcur _]. split; [exact Hcur |]. right. reflexivity.
Qed.

Lemma well_formed_fold (StringToNumber : string -> float) (events : list Event) (st : State) :
  well_formed st -> well_formed (fold_left (handle StringToNumber) events st).
Proof.
  revert st. induction events as [| e events IH]; intros st Hst; [exact Hst |].
  simpl. apply IH, well_formed_handle, Hst.
Qed.

Lemma obj_get_keys {A} (o : Obj A) (k : string) :
  In k (obj_keys o) -> exists v, obj_get o k = Some v.
Proof.
  induction o as [| [k' v'] o IH]; simpl; [tauto |].
  intros [-> | H].
  - rewrite String.eqb_refl. eauto.
  - destruct (String.eqb k k'); eauto.
Qed.

(** X4: Whatever the keys pressed, buttons clicked and workbooks loaded since
    the page opened, the current point is one of the eleven labels, and the
    store is either still empty or has exactly the eleven labels as keys, in
    which case the rows shown are the store's entry for the current point. *)
Theorem reachable_states (StringToNumber : string -> float) (events : list Event) :
  let st := run StringToNumber events in
  exists p,
    currentPoint st = Some p /\ In p POINTS /\
    ((pointSeries st = [] /\ seriesForPoint st = []) \/
     (obj_keys (pointSeries st) = POINTS /\
      obj_get (pointSeries st) p = Some (seriesForPoint st))).
Proof.
  cbv zeta.
  destruct (well_formed_fold StringToNumber events initialState)
    as [(p & Hcur & Hp) Hstore].
  { split; [exists "A"%string; split; [reflexivity | simpl; tauto] | now left]. }
  fold (run StringToNumber events) in Hcur, Hstore.
  exists p. split; [exact Hcur |]. split; [exact Hp |].
  unfold seriesForPoint. rewrite Hcur.
  change (default "undefined"%string (Some p)) with p.
  destruct Hstore as [Hnil | Hkeys].
  - left. rewrite Hnil. split; reflexivity.
  - right. split; [exact Hkeys |].
    destruct (obj_get_keys (pointSeries (run StringToNumber events)) p) as [v Hv].
    { rewrite Hkeys. exact Hp. }
    rewrite Hv. reflexivity.
Qed.

(** ** The sign of a difference *)

Lemma binary_round_aux_not_positive (mx ex : Z) (lx : location) :
  SFltb (S754_zero false) (binary_round_aux prec emax true mx ex lx) = false.
Proof.
  unfold binary_round_aux.
  destruct (shr_fexp prec emax mx ex lx) as [mrs' e'].
  destruct (shr_fexp prec emax _ e' loc_Exact) as [mrs'' e''].
  destruct (shr_m mrs'') as [| m | m]; [reflexivity | | reflexivity].
  destruct (Z.leb e'' (emax - prec)); reflexivity.
Qed.

Lemma binary_normalize_positive (m e : Z) :
  SFltb (S754_zero false) (binary_normalize prec emax m e false) = true ->
  (0 < m)%Z.
Proof.
  destruct m as [| m | m]; simpl; [discriminate | lia |].
  unfold binary_round.
  destruct (shl_align m e _) as [mz ez].
  now rewrite binary_round_aux_not_positive.
Qed.

Lemma binary_normalize_negative (m e : Z) :
  (m < 0)%Z ->
  SFltb (S754_zero false) (binary_normalize prec emax m e false) = false.
Proof.
  destruct m as [| m | m]; simpl; [lia | lia |]. intros _.
  unfold binary_round.
  destruct (shl_align m e _) as [mz ez].
  apply binary_round_aux_not_positive.
Qed.

Lemma SFsub_finite (sa sb : bool) (ma mb : positive) (ea eb : Z) :
  SF64sub (S754_finite sa ma ea) (S754_finite sb mb eb) =
  binary_normalize prec emax
    (cond_Zopp sa (Zpos (fst (shl_align ma ea (Z.min ea eb))))
     - cond_Zopp sb (Zpos (fst (shl_align mb eb (Z.min ea eb)))))%Z
    (Z.min ea eb) false.
Proof. reflexivity. Qed.

Lemma SFsub_antisym (a b : spec_float) :
  SFltb (S754_zero false) (SF64sub a b) = true ->
  SFltb (S754_zero false) (SF64sub b a) = false.
Proof.
  destruct a as [sa | sa | | sa ma ea], b as [sb | sb | | sb mb eb].
  16: { rewrite !SFsub_finite. intros H. apply binary_normalize_positive in H.
        apply binary_normalize_negative. rewrite (Z.min_comm eb ea). lia. }
  all: try (destruct sa); try (destruct sb); simpl; try reflexivity; try discriminate.
Qed.

(** If [a - b] is positive then [b - a] is not. *)
Lemma sub_antisym (a b : float) :
  (0 <? a - b) = true -> (0 <? b - a) = false.
Proof.
  rewrite !ltb_spec, !sub_spec. apply SFsub_antisym.
Qed.

(** ** Sorting *)

Lemma sort_insert_perm (cmp : Row -> Row -> float) (a : Row) (l : list Row) :
  sort_insert cmp a l ≡ₚ a :: l.
Proof.
  induction l as [| b l IH]; simpl; [reflexivity |].
  destruct (0 <? cmp a b); [| reflexivity].
  rewrite IH. apply Permutation_swap.
Qed.

Lemma sort_perm (cmp : Row -> Row -> float) (l : list Row) :
  sort cmp l ≡ₚ l.
Proof.
  unfold sort. induction l as [| a l IH]; simpl; [reflexivity |].
  rewrite sort_insert_perm. now rewrite IH.
Qed.

Section SortedBy.

Variable cmp : Row -> Row -> float.

(** The comparator never puts two rows each after the other. *)
Hypothesis cmp_antisym : forall a b, (0 <? cmp a b) = true -> (0 <? cmp b a) = false.

Let ord (a b : Row) : Prop := (0 <? cmp a b) = false.

Lemma sort_insert_HdRel (a b : Row) (l : list Row) :
  ord b a -> HdRel ord b l -> HdRel ord b (sort_insert cmp a l).
Proof.
  intros Hba Hl. destruct l as [| c l]; simpl; [now constructor |].
  destruct (0 <? cmp a c); constructor; [now inversion Hl | exact Hba].
Qed.

Lemma sort_insert_sorted (a : Row) (l : list Row) :
  Sorted ord l -> Sorted ord (sort_insert cmp a l).
Proof.
  induction 1 as [| b l Hl IH Hb]; simpl; [repeat constructor |].
  destruct (0 <? cmp a b) eqn:E.
  - constructor; [exact IH |].
    apply sort_insert_HdRel; [apply cmp_antisym, E | exact Hb].
  - constructor; [now constructor | constructor; exact E].
Qed.

Lemma sort_sorted (l : list Row) : Sorted ord (sort cmp l).
Proof.
  unfold sort. induction l as [| a l IH]; simpl; [constructor |].
  apply sort_insert_sorted, IH.
Qed.

End SortedBy.

Lemma by_t_k_antisym (StringToNumber : string -> float) (a b : Row) :
  (0 <? by_t_k StringToNumber a b) = true ->
  (0 <? by_t_k StringToNumber b a) = false.
Proof. unfold by_t_k, js_sub. apply sub_antisym. Qed.

(** X5: A point with a sheet of its own gets that sheet's rows, normalised:
    all of them, each once, and in an order where the time of a row
    ([t_k], or 0 when missing) minus the time of the next row is never
    positive.  The combined sheet plays no part. *)
Theorem own_sheet_series (StringToNumber : string -> float) (wbLocal : WorkBook)
    (P : string) (sheet : Sheet) :
  In P POINTS ->
  getSheet wbLocal (buildPointKey P) = Some sheet ->
  exists rows,
    obj_get (resolve StringToNumber wbLocal) P = Some rows /\
    rows ≡ₚ coerceRows StringToNumber sheet /\
    length rows = length sheet /\
    Sorted (not_after StringToNumber) rows.
Proof.
  intros HP Hsheet. rewrite (resolve_get StringToNumber wbLocal P HP).
  unfold seriesOf. rewrite Hsheet. cbn [toArray].
  eexists. split; [reflexivity |]. split; [apply sort_perm |]. split.
  - rewrite (Permutation_length (sort_perm _ _)). unfold coerceRows. apply length_map.
  - apply sort_sorted. intros a b. apply by_t_k_antisym.
Qed.

(** Point A of the sample workbook: the row at time 1 comes first and the
    text cell has become the missing marker. *)
Lemma own_sheet_series_witness :
  In "A"%string POINTS /\
  (exists sheet, getSheet ownSheetA (buildPointKey "A") = Some sheet) /\
  obj_get (resolve nonNumericText ownSheetA) "A"
    = Some [ row [("t_k", VNum 1); ("push_mm_smooth", VNum 4)]%string;
             row [("t_k", VNum 2); ("push_mm_smooth", VNull)]%string ] /\
  exists rows,
    obj_get (resolve nonNumericText ownSheetA) "A" = Some rows /\
    Sorted (not_after nonNumericText) rows.
Proof.
  split; [simpl; tauto |]. split; [eexists; reflexivity |].
  split; [vm_compute; reflexivity |].
  destruct (own_sheet_series nonNumericText ownSheetA "A" _
              ltac:(simpl; tauto) eq_refl) as (rows & H1 & _ & _ & H2).
  exists rows. split; assumption.
Defined.

(** ** More on coercion *)

(** X6: Coercion changes a value exactly when the value is not yet the missing
    marker or a finite number, and it never needs a second pass.  NaN and
    the infinities become the missing marker; a boolean becomes 1 or 0. *)
Theorem numberOrNull_fixed_points (StringToNumber : string -> float) (v : JsVal) :
  (numberOrNull StringToNumber v = v <-> coerced v) /\
  numberOrNull StringToNumber (numberOrNull StringToNumber v)
    = numberOrNull StringToNumber v /\
  numberOrNull StringToNumber (VNum nan) = VNull /\
  numberOrNull StringToNumber (VNum infinity) = VNull /\
  numberOrNull StringToNumber (VNum neg_infinity) = VNull /\
  numberOrNull StringToNumber (VBool true) = VNum 1 /\
  numberOrNull StringToNumber (VBool false) = VNum 0.
Proof.
  split; [split |].
  - intros <-. apply numberOrNull_coerced.
  - apply numberOrNull_fix.
  - split; [apply numberOrNull_fix, numberOrNull_coerced |].
    repeat split; reflexivity.
Qed.

Lemma coerceRow_lookup (StringToNumber : string -> float) (r : Row) (k : string) :
  k <> "t_k"%string \/ is_nullish (get r "t") = true ->
  coerceRow StringToNumber r !! k = numberOrNull StringToNumber <$> r !! k.
Proof.
  intros H. unfold coerceRow. cbv zeta. rewrite coerce_fields.
  destruct (is_nullish (get r "t")) eqn:Ht.
  - rewrite andb_false_r. apply lookup_fmap.
  - destruct H as [H | H]; [| discriminate].
    destruct (_ && _); [rewrite lookup_insert_ne by congruence |]; apply lookup_fmap.
Qed.

(** X7: Normalisation keeps the keys of a row and coerces every field on its
    own: under any key but [t_k], and under [t_k] too when the row has no
    usable [t], the normalised row holds the coerced value of the raw row,
    and holds nothing where the raw row holds nothing. *)
Theorem coerceRow_fields (StringToNumber : string -> float) (r : Row) (k : string) :
  k <> "t_k"%string \/ is_nullish (get r "t") = true ->
  coerceRow StringToNumber r !! k = numberOrNull StringToNumber <$> r !! k /\
  (is_Some (coerceRow StringToNumber r !! k) <-> is_Some (r !! k)).
Proof.
  intros H. rewrite (coerceRow_lookup StringToNumber r k H).
  split; [reflexivity |]. apply fmap_is_Some.
Qed.

(** The text cell of the sample row becomes the missing marker, the key
    stays. *)
Lemma coerceRow_fields_witness :
  ("push_mm"%string <> "t_k"%string \/ is_nullish (get rawRow "t") = true) /\
  coerceRow nonNumericText rawRow !! "push_mm"%string = Some VNull.
Proof.
  assert (H : "push_mm"%string <> "t_k"%string \/ is_nullish (get rawRow "t") = true)
    by (left; discriminate).
  split; [exact H |].
  exact (proj1 (coerceRow_fields nonNumericText rawRow "push_mm" H)).
Defined.

(** X8: A time of its own wins: when the [t_k] cell of a row coerces to a
    number, that number is the time of the normalised row, whatever the row
    holds under [t]. *)
Theorem coerceRow_time_kept (StringToNumber : string -> float) (r : Row)
    (v : JsVal) (n : float) :
  r !! "t_k"%string = Some v ->
  numberOrNull StringToNumber v = VNum n ->
  get (coerceRow StringToNumber r) "t_k" = VNum n.
Proof.
  intros Hv Hn. unfold coerceRow. cbv zeta. rewrite coerce_fields, get_fmap, Hv, Hn.
  simpl. rewrite get_fmap, Hv. exact Hn.
Qed.

Lemma coerceRow_time_kept_witness :
  row [("t_k", VNum 1); ("t", VNum 9)]%string !! "t_k"%string = Some (VNum 1) /\
  numberOrNull nonNumericText (VNum 1) = VNum 1 /\
  get (coerceRow nonNumericText (row [("t_k", VNum 1); ("t", VNum 9)]%string)) "t_k"
    = VNum 1.
Proof.
  split; [reflexivity |]. split; [reflexivity |].
  apply (coerceRow_time_kept nonNumericText _ (VNum 1) 1); reflexivity.
Defined.

(** X9: The fallback: when a row has no [t_k] cell, or one that coerces to the
    missing marker, and its [t] cell is neither null nor undefined, the
    time of the normalised row is the coerced [t]; the [t] field itself
    stays in the row. *)
Theorem coerceRow_time_fallback (StringToNumber : string -> float) (r : Row) :
  (r !! "t_k"%string = None \/
   numberOrNull StringToNumber (get r "t_k") = VNull) ->
  is_nullish (get r "t") = false ->
  coerceRow StringToNumber r !! "t_k"%string
    = Some (numberOrNull StringToNumber (get r "t")) /\
  coerceRow StringToNumber r !! "t"%string
    = Some (numberOrNull StringToNumber (get r "t")).
Proof.
  intros Hk Ht. split.
  - unfold coerceRow. cbv zeta. rewrite coerce_fields, get_fmap, Ht.
    assert (Hnull : is_nullish
              match r !! "t_k"%string with
              | Some v => numberOrNull StringToNumber v
              | None => VUndef
              end = true).
    { unfold get in Hk. destruct (r !! "t_k"%string) as [v |]; [| reflexivity].
      destruct Hk as [Hk | Hk]; [discriminate |]. simpl in Hk. now rewrite Hk. }
    rewrite Hnull. simpl. apply lookup_insert_eq.
  - rewrite coerceRow_lookup by (left; discriminate).
    unfold get in Ht |- *. destruct (r !! "t"%string); [reflexivity | discriminate].
Qed.

(** The sample row, whose time column is called [t], gets [t_k = 3.5]. *)
Lemma coerceRow_time_fallback_witness :
  (rawRow !! "t_k"%string = None \/
   numberOrNull nonNumericText (get rawRow "t_k") = VNull) /\
  is_nullish (get rawRow "t") = false /\
  coerceRow nonNumericText rawRow !! "t_k"%string = Some (VNum 3.5).
Proof.
  assert (H : rawRow !! "t_k"%string = None \/
              numberOrNull nonNumericText (get rawRow "t_k") = VNull)
    by (left; reflexivity).
  split; [exact H |]. split; [reflexivity |].
  exact (proj1 (coerceRow_time_fallback nonNumericText rawRow H eq_refl)).
Defined.

(** ** What the store holds *)

Lemma sort_In (cmp : Row -> Row -> float) (l : list Row) (r : Row) :
  In r (sort cmp l) -> In r l.
Proof.
  intros H. apply list_elem_of_In. apply list_elem_of_In in H.
  now rewrite <- (sort_perm cmp l).
Qed.

Lemma obj_get_In {A} (o : Obj A) (k : string) (v : A) :
  obj_get o k = Some v -> In (k, v) o.
Proof.
  induction o as [| [k' v'] o IH]; simpl; [discriminate |].
  destruct (String.eqb_spec k k') as [-> | _].
  - intros [= ->]. now left.
  - intros H. right. exact (IH H).
Qed.

(** X10: Every row of the store is a normalised row: each of its fields is the
    missing marker or a finite number (never text, NaN or an infinity), and
    normalising it again gives the same row. *)
Theorem store_rows_normalised (StringToNumber : string -> float) (wbLocal : WorkBook)
    (P : string) (rows : list Row) (r : Row) :
  obj_get (resolve StringToNumber wbLocal) P = Some rows ->
  In r rows ->
  (forall k v, r !! k = Some v -> coerced v) /\
  coerceRow StringToNumber r = r.
Proof.
  intros Hget Hr. apply obj_get_In in Hget. rewrite resolve_entries in Hget.
  apply in_map_iff in Hget. destruct Hget as (Q & [= -> <-] & _).
  assert (Hsrc : exists r0, r = coerceRow StringToNumber r0).
  { unfold seriesOf in Hr.
    destruct (getSheet wbLocal (buildPointKey P)); apply sort_In in Hr;
      unfold coerceRows in Hr; apply in_map_iff in Hr;
      destruct Hr as (r0 & <- & _); eauto. }
  destruct Hsrc as [r0 ->]. split.
  - intros k v. apply coerceRow_coerced.
  - apply coerceRow_idem.
Qed.

Lemma store_rows_normalised_witness :
  exists rows r,
    obj_get (resolve nonNumericText ownSheetA) "A" = Some rows /\
    In r rows /\
    coerceRow nonNumericText r = r.
Proof.
  eexists. exists (row [("t_k", VNum 1); ("push_mm_smooth", VNum 4)]%string).
  assert (H1 : obj_get (resolve nonNumericText ownSheetA) "A"
               = Some [ row [("t_k", VNum 1); ("push_mm_smooth", VNum 4)]%string;
                        row [("t_k", VNum 2); ("push_mm_smooth", VNull)]%string ])
    by (vm_compute; reflexivity).
  split; [exact H1 |].
  assert (H2 : In (row [("t_k", VNum 1); ("push_mm_smooth", VNum 4)]%string)
                 [ row [("t_k", VNum 1); ("push_mm_smooth", VNum 4)]%string;
                   row [("t_k", VNum 2); ("push_mm_smooth", VNull)]%string ])
    by (left; reflexivity).
  split; [exact H2 |].
  exact (proj2 (store_rows_normalised nonNumericText ownSheetA "A" _ _ H1 H2)).
Defined.

(** ** Finite numbers and the infinities *)

Lemma is_nan_spec (f : float) :
  PrimFloat.is_nan f = false -> Prim2SF f <> S754_nan.
Proof.
  unfold PrimFloat.is_nan. rewrite FloatAxioms.eqb_spec. intros H E. rewrite E in H. discriminate.
Qed.

Lemma is_infinity_spec (f : float) (s : bool) :
  PrimFloat.is_infinity f = false -> Prim2SF f <> S754_infinity s.
Proof.
  unfold PrimFloat.is_infinity. rewrite FloatAxioms.eqb_spec, abs_spec. intros H E.
  rewrite E in H. discriminate.
Qed.

(** A finite number lies strictly between the two infinities. *)
Lemma finite_between_infinities (f : float) :
  PrimFloat.is_finite f = true ->
  (f <? infinity) = true /\ (neg_infinity <? f) = true.
Proof.
  intros H. apply is_finite_not_nan in H. destruct H as [Hn Hi].
  pose proof (is_nan_spec f Hn) as Hn'.
  pose proof (fun s => is_infinity_spec f s Hi) as Hi'.
  rewrite !ltb_spec.
  change (Prim2SF infinity) with (S754_infinity false).
  change (Prim2SF neg_infinity) with (S754_infinity true).
  destruct (Prim2SF f) as [s | s | | s m e].
  - split; reflexivity.
  - exfalso. now apply (Hi' s).
  - exfalso. now apply Hn'.
  - split; reflexivity.
Qed.

(** ** The bounds a scan leaves *)

Section MinMaxFold.

Let scan (vs : list float) (acc : float * float) : float * float :=
  fold_left (fun acc v => min_max v acc) vs acc.

Lemma scan_covered (vs : list float) (acc : float * float) (v : float) :
  min_max v acc = acc -> min_max v (scan vs acc) = scan vs acc.
Proof.
  revert acc. induction vs as [| w vs IH]; intros acc H; [exact H |].
  apply IH, min_max_covered, H.
Qed.

Lemma scan_covers (vs : list float) (acc : float * float) :
  Forall (fun v => min_max v (scan vs acc) = scan vs acc) vs.
Proof.
  revert acc. induction vs as [| w vs IH]; intros acc; constructor.
  - apply (scan_covered vs (min_max w acc)), min_max_again.
  - apply IH.
Qed.

Lemma scan_member (vs : list float) (lo0 hi0 : float) :
  (fst (scan vs (lo0, hi0)) = lo0 \/ In (fst (scan vs (lo0, hi0))) vs) /\
  (snd (scan vs (lo0, hi0)) = hi0 \/ In (snd (scan vs (lo0, hi0))) vs).
Proof.
  revert lo0 hi0. induction vs as [| w vs IH]; intros lo0 hi0; [now split; left |].
  change (scan (w :: vs) (lo0, hi0)) with (scan vs (min_max w (lo0, hi0))).
  unfold min_max.
  destruct (IH (if w <? lo0 then w else lo0) (if hi0 <? w then w else hi0))
    as [[Hl | Hl] [Hh | Hh]]; split;
    try (right; right; assumption).
  all: try (rewrite Hl; destruct (w <? lo0); [right; now left | now left]).
  all: try (rewrite Hh; destruct (hi0 <? w); [right; now left | now left]).
Qed.

Lemma scan_extremes (vs : list float) :
  Forall (fun v => PrimFloat.is_finite v = true) vs ->
  extremes vs (fst (scan vs (infinity, neg_infinity)))
              (snd (scan vs (infinity, neg_infinity))).
Proof.
  intros Hfin. split.
  - pose proof (scan_covers vs (infinity, neg_infinity)) as H.
    eapply Forall_impl; [exact H |]. intros v Hv. simpl in Hv.
    apply min_max_fixed in Hv. exact Hv.
  - destruct vs as [| w vs]; [congruence |]. intros _.
    apply Forall_inv in Hfin.
    destruct (finite_between_infinities w Hfin) as [Hlt Hgt].
    change (scan (w :: vs) (infinity, neg_infinity))
      with (scan vs (min_max w (infinity, neg_infinity))).
    unfold min_max. rewrite Hlt, Hgt.
    destruct (scan_member vs w w) as [[-> | H1] [-> | H2]]; split;
      solve [now left | now right].
Qed.

End MinMaxFold.

Lemma track_finite_number (v : JsVal) (acc : float * float) :
  track v acc = match finite_number v with
                | Some n => min_max n acc
                | None => acc
                end.
Proof.
  unfold track. destruct v; simpl; try reflexivity.
  now destruct (PrimFloat.is_finite n).
Qed.

Lemma finite_number_finite (v : JsVal) (n : float) :
  finite_number v = Some n -> PrimFloat.is_finite n = true.
Proof.
  destruct v; simpl; try discriminate.
  destruct (PrimFloat.is_finite n0) eqn:E; [| discriminate]. now intros [= <-].
Qed.

Lemma omap_finite {A} (f : A -> JsVal) (l : list A) :
  Forall (fun v => PrimFloat.is_finite v = true) (omap (fun a => finite_number (f a)) l).
Proof.
  induction l as [| a l IH]; simpl; [constructor |].
  destruct (finite_number (f a)) as [n |] eqn:E; [| exact IH].
  constructor; [exact (finite_number_finite _ _ E) | exact IH].
Qed.

Lemma track_fold {A} (f : A -> JsVal) (l : list A) (acc : float * float) :
  fold_left (fun acc a => track (f a) acc) l acc =
  fold_left (fun acc v => min_max v acc) (omap (fun a => finite_number (f a)) l) acc.
Proof.
  revert acc. induction l as [| a l IH]; intros acc; [reflexivity |].
  simpl. rewrite track_finite_number, IH.
  now destruct (finite_number (f a)).
Qed.

Lemma scan_rows_values (s : bool) (m : Metric) (rows : list Row) (acc : float * float) :
  scan_rows s m rows acc =
  fold_left (fun acc v => min_max v acc) (active_values s m rows) acc.
Proof.
  unfold scan_rows, active_values.
  revert acc. induction rows as [| r rows IH]; intros acc; [reflexivity |].
  simpl. rewrite fold_left_app, <- IH. f_equal.
  unfold scan_series.
  exact (track_fold (fun sd => get r (if s then keySm sd else keyRaw sd)) (series m) acc).
Qed.

Lemma scan_store_values (s : bool) (m : Metric) (pointData : Obj (list Row)) :
  scan_store s m pointData =
  fold_left (fun acc v => min_max v acc) (store_values s m pointData)
            (infinity, neg_infinity).
Proof.
  unfold scan_store, store_values.
  generalize (infinity, neg_infinity).
  induction (obj_values pointData) as [| rows l IH]; intros acc; [reflexivity |].
  simpl. rewrite fold_left_app, <- IH. f_equal. apply scan_rows_values.
Qed.

Lemma store_values_finite (s : bool) (m : Metric) (pointData : Obj (list Row)) :
  Forall (fun v => PrimFloat.is_finite v = true) (store_values s m pointData).
Proof.
  unfold store_values, active_values.
  induction (obj_values pointData) as [| rows l IH]; simpl; [constructor |].
  apply Forall_app. split; [| exact IH].
  induction rows as [| r rows IHr]; simpl; [constructor |].
  apply Forall_app. split; [| exact IHr].
  exact (omap_finite (fun sd => get r (if s then keySm sd else keyRaw sd)) (series m)).
Qed.

Lemma global_entries (pointData : Obj (list Row)) (s : bool) :
  computeGlobalDomains pointData s =
  map (fun m => (key m, padded 0.05 1 (-1, 1) (scan_store s m pointData))) METRICS.
Proof. reflexivity. Qed.

Lemma padded_finite (ratio fallbackPad : float) (dflt : float * float) (lo hi : float) :
  PrimFloat.is_finite lo = true -> PrimFloat.is_finite hi = true ->
  padded ratio fallbackPad dflt (lo, hi) =
  (lo - or_else ((hi - lo) * ratio) fallbackPad,
   hi + or_else ((hi - lo) * ratio) fallbackPad).
Proof. intros Hlo Hhi. unfold padded. now rewrite Hlo, Hhi. Qed.

Lemma local_entries (rows : list Row) (s : bool) :
  y (computeLocalDomains rows s) =
    map (fun m => (key m, padded 0.05 1 (-1, 1)
                            (scan_rows s m rows (infinity, neg_infinity)))) METRICS /\
  x (computeLocalDomains rows s) =
    padded 0.02 0.01 (0, 1) (scan_time rows (infinity, neg_infinity)).
Proof.
  unfold computeLocalDomains. rewrite local_metrics. cbn [y x]. split; [reflexivity |].
  f_equal. exact (scan_time_iter 3 rows (infinity, neg_infinity)).
Qed.

Lemma scan_bounds (vs : list float) (ratio fallbackPad : float) (dflt : float * float) :
  Forall (fun v => PrimFloat.is_finite v = true) vs ->
  exists lo hi,
    extremes vs lo hi /\
    padded ratio fallbackPad dflt
      (fold_left (fun acc v => min_max v acc) vs (infinity, neg_infinity)) =
    match vs with
    | [] => padded ratio fallbackPad dflt (infinity, neg_infinity)
    | _ :: _ => (lo - or_else ((hi - lo) * ratio) fallbackPad,
                 hi + or_else ((hi - lo) * ratio) fallbackPad)
    end.
Proof.
  intros Hfin. pose proof (scan_extremes vs Hfin) as Hex.
  destruct (fold_left (fun acc v => min_max v acc) vs (infinity, neg_infinity))
    as [lo hi] eqn:E.
  exists lo, hi. split; [exact Hex |].
  destruct vs as [| w vs]; [now inversion E |].
  destruct Hex as [_ Hin]. destruct Hin as [Hlo Hhi]; [discriminate |].
  simpl fst in Hlo. simpl snd in Hhi.
  rewrite Forall_forall in Hfin.
  apply padded_finite; apply Hfin; apply list_elem_of_In; assumption.
Qed.

(** X11: Before the padding, the bounds of a metric are the least and the
    greatest finite value found under its active keys anywhere in the store:
    no such value lies below the lower bound or above the upper one, and
    both bounds are such values.  The domain is then these bounds widened by
    5% of their distance, or by 1 when that product is zero; with no finite
    value at all it is [-1.1, 1.1]. *)
Theorem metric_bounds (pointData : Obj (list Row)) (s : bool) :
  Forall (fun m =>
    exists lo hi,
      extremes (store_values s m pointData) lo hi /\
      obj_get (computeGlobalDomains pointData s) (key m) =
      Some match store_values s m pointData with
           | [] => (-1.1, 1.1)
           | _ :: _ => (lo - or_else ((hi - lo) * 0.05) 1,
                        hi + or_else ((hi - lo) * 0.05) 1)
           end) METRICS.
Proof.
  apply Forall_forall. intros m Hm.
  destruct (scan_bounds (store_values s m pointData) 0.05 1 (-1, 1)
              (store_values_finite s m pointData)) as (lo & hi & Hex & Hpad).
  exists lo, hi. split; [exact Hex |].
  rewrite global_entries.
  assert (Hget : obj_get
            (map (fun m => (key m, padded 0.05 1 (-1, 1) (scan_store s m pointData)))
                 METRICS) (key m)
          = Some (padded 0.05 1 (-1, 1) (scan_store s m pointData))).
  { apply list_elem_of_In in Hm. unfold METRICS in Hm |- *. simpl in Hm.
    repeat (destruct Hm as [<- | Hm]; [reflexivity |]). destruct Hm. }
  rewrite Hget, scan_store_values, Hpad.
  destruct (store_values s m pointData); reflexivity.
Qed.

Lemma store_times_scan (pointData : Obj (list Row)) (acc : float * float) :
  fold_left (fun acc rows => scan_time rows acc) (obj_values pointData) acc =
  fold_left (fun acc v => min_max v acc) (store_times pointData) acc.
Proof.
  unfold store_times. revert acc.
  induction (obj_values pointData) as [| rows l IH]; intros acc; [reflexivity |].
  simpl. rewrite fold_left_app, <- IH. f_equal.
  exact (track_fold (fun r => get r "t_k") rows acc).
Qed.

Lemma store_times_finite (pointData : Obj (list Row)) :
  Forall (fun v => PrimFloat.is_finite v = true) (store_times pointData).
Proof.
  unfold store_times.
  induction (obj_values pointData) as [| rows l IH]; simpl; [constructor |].
  apply Forall_app. split; [| exact IH].
  exact (omap_finite (fun r => get r "t_k") rows).
Qed.

(** X12: The same for the time axis: before the padding, the bounds are the
    least and the greatest finite [t_k] of the store; the domain is these
    bounds widened by 2% of their distance, or by 0.01 when that product is
    zero; with no finite time at all it is [-0.02, 1.02]. *)
Theorem time_bounds (pointData : Obj (list Row)) :
  exists lo hi,
    extremes (store_times pointData) lo hi /\
    computeGlobalXDomain pointData =
    match store_times pointData with
    | [] => (-0.02, 1.02)
    | _ :: _ => (lo - or_else ((hi - lo) * 0.02) 0.01,
                 hi + or_else ((hi - lo) * 0.02) 0.01)
    end.
Proof.
  destruct (scan_bounds (store_times pointData) 0.02 0.01 (0, 1)
              (store_times_finite pointData)) as (lo & hi & Hex & Hpad).
  exists lo, hi. split; [exact Hex |].
  unfold computeGlobalXDomain. rewrite store_times_scan, Hpad.
  destruct (store_times pointData); [vm_compute |]; reflexivity.
Qed.

(** X13: Every panel gets a pair of numbers as its y-domain, locked or not and
    whatever the store holds: the global and the local computation both
    return one entry per metric, under the four metric keys in the order of
    the metrics, so the chart's own choice of a domain is never asked for. *)
Theorem axis_domains_defined (st : State) :
  Forall (fun m => exists d, yAxisDomain st m = Numeric d) METRICS /\
  (forall pointData s,
     obj_keys (computeGlobalDomains pointData s) = map key METRICS) /\
  (forall rows s,
     obj_keys (y (computeLocalDomains rows s)) = map key METRICS).
Proof.
  split; [| split].
  - unfold yAxisDomain.
    destruct (lockAxes st).
    + rewrite global_entries. repeat constructor; eexists; reflexivity.
    + rewrite (proj1 (local_entries _ _)). repeat constructor; eexists; reflexivity.
  - intros pointData s. rewrite global_entries. reflexivity.
  - intros rows s. rewrite (proj1 (local_entries rows s)). reflexivity.
Qed.

Lemma active_values_finite (s : bool) (m : Metric) (rows : list Row) :
  Forall (fun v => PrimFloat.is_finite v = true) (active_values s m rows).
Proof.
  unfold active_values.
  induction rows as [| r rows IH]; simpl; [constructor |].
  apply Forall_app. split; [| exact IH].
  exact (omap_finite (fun sd => get r (if s then keySm sd else keyRaw sd)) (series m)).
Qed.

(** X14: The local computation, for the rows of one point: before the padding,
    the bounds of each metric are the least and the greatest finite value
    under its active keys in these rows, and the time bounds are the least
    and the greatest finite [t_k]; the padding and the fallbacks are those of
    the global computation. *)
Theorem local_bounds (rows : list Row) (s : bool) :
  Forall (fun m =>
    exists lo hi,
      extremes (active_values s m rows) lo hi /\
      obj_get (y (computeLocalDomains rows s)) (key m) =
      Some match active_values s m rows with
           | [] => (-1.1, 1.1)
           | _ :: _ => (lo - or_else ((hi - lo) * 0.05) 1,
                        hi + or_else ((hi - lo) * 0.05) 1)
           end) METRICS /\
  exists lo hi,
    extremes (time_values rows) lo hi /\
    x (computeLocalDomains rows s) =
    match time_values rows with
    | [] => (-0.02, 1.02)
    | _ :: _ => (lo - or_else ((hi - lo) * 0.02) 0.01,
                 hi + or_else ((hi - lo) * 0.02) 0.01)
    end.
Proof.
  destruct (local_entries rows s) as [Hy Hx]. split.
  - apply Forall_forall. intros m Hm.
    destruct (scan_bounds (active_values s m rows) 0.05 1 (-1, 1)
                (active_values_finite s m rows)) as (lo & hi & Hex & Hpad).
    exists lo, hi. split; [exact Hex |]. rewrite Hy.
    assert (Hget : obj_get
              (map (fun m => (key m, padded 0.05 1 (-1, 1)
                                       (scan_rows s m rows (infinity, neg_infinity))))
                   METRICS) (key m)
            = Some (padded 0.05 1 (-1, 1) (scan_rows s m rows (infinity, neg_infinity)))).
    { apply list_elem_of_In in Hm. unfold METRICS in Hm |- *. simpl in Hm.
      repeat (destruct Hm as [<- | Hm]; [reflexivity |]). destruct Hm. }
    rewrite Hget, scan_rows_values, Hpad.
    destruct (active_values s m rows); reflexivity.
  - destruct (scan_bounds (time_values rows) 0.02 0.01 (0, 1)
                (omap_finite (fun r => get r "t_k") rows)) as (lo & hi & Hex & Hpad).
    exists lo, hi. split; [exact Hex |]. rewrite Hx.
    unfold scan_time. rewrite (track_fold (fun r => get r "t_k") rows).
    fold (time_values rows). rewrite Hpad.
    destruct (time_values rows); reflexivity.
Qed.

(** ** Points without data *)

Lemma obj_set_fresh {A} (o : Obj A) (k : string) (v : A) :
  obj_get o k = None -> obj_set o k v = o ++ [(k, v)].
Proof.
  induction o as [| [k' v'] o IH]; simpl; [reflexivity |].
  destruct (String.eqb k k'); [discriminate |].
  intros H. now rewrite IH.
Qed.

(** X15: Adding a point none of whose rows holds a finite number changes no
    global domain: neither a metric's nor the time's. *)
Theorem point_without_data_ignored (pointData : Obj (list Row)) (P : string)
    (rows : list Row) (s : bool) :
  obj_get pointData P = None ->
  Forall nothing_finite rows ->
  computeGlobalDomains (obj_set pointData P rows) s = computeGlobalDomains pointData s /\
  computeGlobalXDomain (obj_set pointData P rows) = computeGlobalXDomain pointData.
Proof.
  intros Hfresh Hrows. rewrite obj_set_fresh by exact Hfresh.
  assert (Hvals : obj_values (pointData ++ [(P, rows)]) = obj_values pointData ++ [rows]).
  { unfold obj_values. now rewrite map_app. }
  split.
  - rewrite !global_entries. apply map_ext. intros m. do 2 f_equal.
    unfold scan_store. rewrite Hvals, fold_left_app. simpl.
    apply scan_rows_skip, Hrows.
  - unfold computeGlobalXDomain. rewrite Hvals, fold_left_app. simpl.
    now rewrite scan_time_skip.
Qed.

Lemma noDataRows_nothing_finite : Forall nothing_finite noDataRows.
Proof.
  repeat constructor. intros k. unfold get, row. simpl.
  destruct (decide (k = "t_k"%string)) as [-> | H1]; [reflexivity |].
  rewrite lookup_insert_ne by congruence.
  destruct (decide (k = "push_mm"%string)) as [-> | H2]; [reflexivity |].
  rewrite lookup_insert_ne by congruence. reflexivity.
Qed.

(** A third point without data beside the two points of the self-test. *)
Lemma point_without_data_ignored_witness :
  obj_get twoPoints "C" = None /\
  Forall nothing_finite noDataRows /\
  computeGlobalDomains (obj_set twoPoints "C" noDataRows) false
    = computeGlobalDomains twoPoints false.
Proof.
  split; [reflexivity |]. split; [exact noDataRows_nothing_finite |].
  exact (proj1 (point_without_data_ignored twoPoints "C" noDataRows false
                  eq_refl noDataRows_nothing_finite)).
Defined.

(** X16: A workbook that gives no point a sheet of its own, whatever else it
    holds, resolves to eleven empty series; every global domain is then the
    padded fallback, [-1.1, 1.1] for the metrics and [-0.02, 1.02] for the
    time. *)
Theorem no_own_sheets (StringToNumber : string -> float) (wbLocal : WorkBook) (s : bool) :
  Forall (fun P => getSheet wbLocal (buildPointKey P) = None) POINTS ->
  resolve StringToNumber wbLocal = map (fun P => (P, [])) POINTS /\
  computeGlobalDomains (resolve StringToNumber wbLocal) s =
    [("disp", (-1.1, 1.1)); ("vel", (-1.1, 1.1));
     ("theta", (-1.1, 1.1)); ("ratio", (-1.1, 1.1))]%string /\
  computeGlobalXDomain (resolve StringToNumber wbLocal) = (-0.02, 1.02).
Proof.
  intros Hno.
  assert (Hres : resolve StringToNumber wbLocal = map (fun P => (P, [])) POINTS).
  { rewrite resolve_entries. apply map_ext_in. intros P HP.
    rewrite Forall_forall in Hno. apply list_elem_of_In in HP.
    unfold seriesOf. rewrite (Hno P HP), filter_Point_nil. reflexivity. }
  rewrite Hres. split; [reflexivity |].
  split; [destruct s |]; vm_compute; reflexivity.
Qed.

(** The workbook with the combined sheet only. *)
Lemma no_own_sheets_witness :
  Forall (fun P => getSheet combinedOnly (buildPointKey P) = None) POINTS /\
  resolve nonNumericText combinedOnly = map (fun P => (P, [])) POINTS.
Proof.
  assert (H : Forall (fun P => getSheet combinedOnly (buildPointKey P) = None) POINTS)
    by (repeat constructor).
  split; [exact H |].
  exact (proj1 (no_own_sheets nonNumericText combinedOnly true H)).
Defined.

(** ** Sheet names *)

Lemma string_length_app (p q : string) :
  String.length (p ++ q) = (String.length p + String.length q)%nat.
Proof. induction p as [| c p IH]; simpl; [reflexivity | now rewrite IH]. Qed.

Lemma string_app_inv_tail (p q t : string) :
  (p ++ t)%string = (q ++ t)%string -> p = q.
Proof.
  revert q. induction p as [| c p IH]; intros [| d q] H.
  - reflexivity.
  - apply (f_equal String.length) in H.
    rewrite !string_length_app in H. simpl in H. lia.
  - apply (f_equal String.length) in H.
    rewrite !string_length_app in H. simpl in H. lia.
  - change (String c (p ++ t) = String d (q ++ t))%string in H.
    injection H as -> H. f_equal. apply IH, H.
Qed.

(** X17: The name of a point's own sheet determines the point, and it is never
    the name of the combined sheet: two points never read the same sheet,
    and the combined sheet is never taken for a point's own. *)
Theorem buildPointKey_injective (p q : string) :
  (buildPointKey p = buildPointKey q <-> p = q) /\
  buildPointKey p <> "per_step_all"%string.
Proof.
  unfold buildPointKey. split; [split |].
  - intros H. cbv [String.append] in H. fold String.append in H.
    injection H as H. exact (string_app_inv_tail _ _ _ H).
  - now intros ->.
  - intros H. apply (f_equal String.length) in H.
    rewrite !string_length_app in H. simpl in H. lia.
Qed.

(** ** Self-tests and colours *)

(** X18: In every state the self-tests report four passes, in the order of
    the source and under the names of the source (their words joined by
    no-break spaces): the empty-data domains are finite, the two-point
    displacement domain spans 0 and 5, the series of the current point is an
    array, and the six series colours are distinct. *)
Theorem self_tests_pass (st : State) :
  runSelfTests st =
  [ {| name := "Empty data → finite domains"; ok := true; detail := None |};
    {| name := "Global domains aggregate across points"; ok := true; detail := None |};
    {| name := "seriesForPoint defined before localDomains"; ok := true; detail := None |};
    {| name := "Series color mapping stable"; ok := true; detail := None |} ]%string.
Proof. vm_compute. reflexivity. Qed.

(** X19: Every line of every panel is drawn in the colour its label has in the
    colour table; the default palette is never consulted, and no two of the
    six lines share a colour. *)
Theorem strokes_distinct :
  Forall (fun m =>
    panel_strokes m = map (fun sd => obj_get SERIES_COLORS (label sd)) (series m) /\
    Forall is_Some (panel_strokes m)) METRICS /\
  NoDup (flat_map panel_strokes METRICS).
Proof.
  split.
  - repeat constructor; eexists; reflexivity.
  - apply (bool_decide_unpack _). vm_compute. exact I.
Qed.

(** ** Rounding keeps the sign of a difference *)

Section BinaryRounding.

Local Open Scope Z_scope.

Lemma digits2_pos_bound (m : positive) :
  2 ^ (Zpos (digits2_pos m) - 1) <= Zpos m < 2 ^ Zpos (digits2_pos m).
Proof.
  induction m as [m IH | m IH |]; simpl digits2_pos.
  - rewrite Pos2Z.inj_succ.
    replace (Z.succ (Zpos (digits2_pos m)) - 1) with (Z.succ (Zpos (digits2_pos m) - 1)) by lia.
    rewrite !Z.pow_succ_r by lia. pose proof (Pos2Z.inj_xI m). lia.
  - rewrite Pos2Z.inj_succ.
    replace (Z.succ (Zpos (digits2_pos m)) - 1) with (Z.succ (Zpos (digits2_pos m) - 1)) by lia.
    rewrite !Z.pow_succ_r by lia. pose proof (Pos2Z.inj_xO m). lia.
  - simpl. lia.
Qed.

Lemma shr_1_m (mrs : shr_record) :
  0 <= shr_m mrs -> shr_m (shr_1 mrs) = shr_m mrs / 2.
Proof.
  destruct mrs as [m r s]. cbn [shr_m]. intros Hm.
  destruct m as [| [p | p |] | p]; cbn [shr_1 shr_m]; [| | | | lia].
  - reflexivity.
  - apply (Z.div_unique _ _ _ 1); lia.
  - apply (Z.div_unique _ _ _ 0); lia.
  - reflexivity.
Qed.

Lemma iter_shr_m (p : positive) (mrs : shr_record) :
  0 <= shr_m mrs ->
  shr_m (SpecFloat.iter_pos shr_1 p mrs) = shr_m mrs / 2 ^ Zpos p.
Proof.
  revert mrs. induction p as [p IH | p IH |]; intros mrs Hm; simpl SpecFloat.iter_pos.
  - assert (Hpow : 0 < 2 ^ Zpos p) by (apply Z.pow_pos_nonneg; lia).
    assert (H1 : 0 <= shr_m (shr_1 mrs)) by (rewrite shr_1_m by lia; apply Z.div_pos; lia).
    assert (H2 : 0 <= shr_m (SpecFloat.iter_pos shr_1 p (shr_1 mrs)))
      by (rewrite IH by lia; apply Z.div_pos; lia).
    rewrite IH, IH, shr_1_m by lia.
    rewrite !Z.div_div by lia.
    f_equal.
    replace (Zpos p~1) with (1 + Zpos p + Zpos p) by lia.
    rewrite !Z.pow_add_r by lia. simpl (2 ^ 1). lia.
  - assert (Hpow : 0 < 2 ^ Zpos p) by (apply Z.pow_pos_nonneg; lia).
    assert (H2 : 0 <= shr_m (SpecFloat.iter_pos shr_1 p mrs))
      by (rewrite IH by lia; apply Z.div_pos; lia).
    rewrite IH, IH by lia.
    rewrite !Z.div_div by lia.
    f_equal.
    replace (Zpos p~0) with (Zpos p + Zpos p) by lia.
    rewrite !Z.pow_add_r by lia. lia.
  - rewrite shr_1_m by lia. reflexivity.
Qed.

Lemma fexp_lower (e : Z) : (-1074) <= fexp prec emax e.
Proof. unfold fexp, SpecFloat.emin, prec, emax. lia. Qed.

Lemma shr_record_of_loc_m (m : Z) (l : location) : shr_m (shr_record_of_loc m l) = m.
Proof. destruct l as [| []]; reflexivity. Qed.

(** Rounding towards the format never loses a positive mantissa whose
    exponent is not below the least one. *)
Lemma shr_fexp_pos (m : positive) (e : Z) (l : location) :
  (-1074) <= e ->
  0 < shr_m (fst (shr_fexp prec emax (Zpos m) e l)) /\
  (-1074) <= snd (shr_fexp prec emax (Zpos m) e l).
Proof.
  intros He. unfold shr_fexp, shr. cbn [Zdigits2].
  pose proof (digits2_pos_bound m) as Hd.
  set (d := Zpos (digits2_pos m)) in *.
  assert (Hfexp : fexp prec emax (d + e) = Z.max (d + e - 53) (-1074)) by reflexivity.
  destruct (fexp prec emax (d + e) - e) as [| n | n] eqn:En; cbn [fst snd].
  - rewrite shr_record_of_loc_m. lia.
  - rewrite iter_shr_m by (rewrite shr_record_of_loc_m; lia).
    rewrite shr_record_of_loc_m. split; [| lia].
    assert (Hn : Zpos n = d - 53) by lia.
    apply Z.div_str_pos. split; [apply Z.pow_pos_nonneg; lia |].
    apply Z.le_trans with (2 ^ (d - 1)); [| lia].
    apply Z.pow_le_mono_r; lia.
  - rewrite shr_record_of_loc_m. lia.
Qed.

Lemma round_nearest_even_pos (m : Z) (l : location) :
  0 < m -> 0 < round_nearest_even m l.
Proof.
  intros Hm. destruct l as [| []]; simpl; try lia.
  destruct (Z.even m); lia.
Qed.

Lemma binary_round_aux_positive (m : positive) (e : Z) (l : location) :
  (-1074) <= e ->
  SFltb (S754_zero false) (binary_round_aux prec emax false (Zpos m) e l) = true.
Proof.
  intros He. unfold binary_round_aux.
  destruct (shr_fexp_pos m e l He) as [H1 H1e].
  destruct (shr_fexp prec emax (Zpos m) e l) as [mrs' e']. cbn [fst snd] in H1, H1e.
  pose proof (round_nearest_even_pos (shr_m mrs') (loc_of_shr_record mrs') H1) as Hr.
  destruct (round_nearest_even (shr_m mrs') (loc_of_shr_record mrs')) as [| r | r];
    try lia.
  destruct (shr_fexp_pos r e' loc_Exact H1e) as [H2 _].
  destruct (shr_fexp prec emax (Zpos r) e' loc_Exact) as [mrs'' e'']. cbn [fst] in H2.
  destruct (shr_m mrs'') as [| q | q]; try lia.
  destruct (e'' <=? emax - prec); reflexivity.
Qed.

Lemma shl_align_spec (m : positive) (e e' : Z) :
  e' <= e ->
  Zpos (fst (shl_align m e e')) = Zpos m * 2 ^ (e - e') /\
  snd (shl_align m e e') = e'.
Proof.
  intros He. unfold shl_align.
  destruct (e' - e) as [| d | d] eqn:Ed; cbn [fst snd]; try lia.
  - replace (e - e') with 0 by lia. split; lia.
  - replace (e - e') with (Zpos d) by lia. split; [| reflexivity].
    clear Ed He. induction d as [| d IH] using Pos.peano_ind.
    + simpl. lia.
    + rewrite Pos.iter_succ, Pos2Z.inj_succ, Z.pow_succ_r by lia.
      pose proof (Pos2Z.inj_xO (Pos.iter xO m d)). lia.
Qed.

Lemma shl_align_lower (m : positive) (e e' : Z) :
  (-1074) <= e -> (-1074) <= e' -> (-1074) <= snd (shl_align m e e').
Proof.
  intros He He'. unfold shl_align. destruct (e' - e); cbn [snd]; lia.
Qed.

Lemma binary_normalize_sign (d e : Z) :
  (-1074) <= e ->
  SFltb (S754_zero false) (binary_normalize prec emax d e false) = (0 <? d).
Proof.
  intros He. destruct d as [| d | d]; cbn [binary_normalize].
  - reflexivity.
  - unfold binary_round.
    pose proof (shl_align_lower d e (fexp prec emax (Zpos (digits2_pos d) + e)) He (fexp_lower _)) as Hl.
    destruct (shl_align d e _) as [mz ez]. cbn [snd] in Hl.
    now rewrite binary_round_aux_positive.
  - unfold binary_round. destruct (shl_align d e _) as [mz ez].
    unfold binary_round_aux.
    destruct (shr_fexp prec emax (Zpos mz) ez loc_Exact) as [mrs' e'].
    destruct (shr_fexp prec emax _ e' loc_Exact) as [mrs'' e''].
    destruct (shr_m mrs'') as [| q | q]; [reflexivity | | reflexivity].
    destruct (e'' <=? emax - prec); reflexivity.
Qed.

Lemma canonical_facts (m : positive) (e : Z) :
  canonical_mantissa prec emax m e = true ->
  (-1074) <= e /\ Zpos (digits2_pos m) <= 53 /\
  ((-1074) < e -> Zpos (digits2_pos m) = 53).
Proof.
  unfold canonical_mantissa, fexp, SpecFloat.emin, prec, emax.
  intros H. apply Z.eqb_eq in H. lia.
Qed.

Lemma canonical_bounds (m : positive) (e : Z) :
  canonical_mantissa prec emax m e = true ->
  (-1074) <= e /\ Zpos m < 2 ^ 53 /\ ((-1074) < e -> 2 ^ 52 <= Zpos m).
Proof.
  intros H. destruct (canonical_facts m e H) as (He & Hd & Hn).
  pose proof (digits2_pos_bound m) as [Hlo Hhi].
  split; [exact He |]. split.
  - apply Z.lt_le_trans with (2 ^ Zpos (digits2_pos m)); [exact Hhi |].
    apply Z.pow_le_mono_r; lia.
  - intros Hgt. rewrite (Hn Hgt) in Hlo. exact Hlo.
Qed.

Lemma aligned_compare (mx my : positive) (ex ey : Z) :
  canonical_mantissa prec emax mx ex = true ->
  canonical_mantissa prec emax my ey = true ->
  (0 <? Zpos (fst (shl_align mx ex (Z.min ex ey)))
        - Zpos (fst (shl_align my ey (Z.min ex ey)))) =
  match ey ?= ex with
  | Lt => true
  | Gt => false
  | Eq => match Pos.compare my mx with Lt => true | _ => false end
  end.
Proof.
  intros Hx Hy.
  destruct (canonical_bounds mx ex Hx) as (Hex & Hmx & Hnx).
  destruct (canonical_bounds my ey Hy) as (Hey & Hmy & Hny).
  destruct (shl_align_spec mx ex (Z.min ex ey) ltac:(lia)) as [-> _].
  destruct (shl_align_spec my ey (Z.min ex ey) ltac:(lia)) as [-> _].
  change (2 ^ 53) with 9007199254740992 in *.
  change (2 ^ 52) with 4503599627370496 in *.
  destruct (Z.compare_spec ey ex) as [-> | Hlt | Hgt].
  - rewrite Z.min_id, Z.sub_diag. simpl (2 ^ 0).
    destruct (Pos.compare_spec my mx); lia.
  - rewrite Z.min_r by lia. rewrite Z.sub_diag. simpl (2 ^ 0).
    assert (2 <= 2 ^ (ex - ey)) by (change 2 with (2 ^ 1) at 1; apply Z.pow_le_mono_r; lia).
    specialize (Hnx ltac:(lia)). nia.
  - rewrite Z.min_l by lia. rewrite Z.sub_diag. simpl (2 ^ 0).
    assert (2 <= 2 ^ (ey - ex)) by (change 2 with (2 ^ 1) at 1; apply Z.pow_le_mono_r; lia).
    specialize (Hny ltac:(lia)). nia.
Qed.

(** On zeros and finite numbers, the sign of the difference is the order. *)
Lemma SFsub_sign (x y : spec_float) :
  real_sf x -> real_sf y ->
  SFltb (S754_zero false) (SF64sub x y) = SFltb y x.
Proof.
  destruct x as [sx | sx | | sx mx ex], y as [sy | sy | | sy my ey];
    simpl real_sf; intros Hx Hy; try contradiction.
  - destruct sx, sy; reflexivity.
  - destruct sy; reflexivity.
  - destruct sx; reflexivity.
  - rewrite SFsub_finite.
    destruct (canonical_facts mx ex Hx) as (Hex & _).
    destruct (canonical_facts my ey Hy) as (Hey & _).
    rewrite binary_normalize_sign by lia.
    pose proof (aligned_compare mx my ex ey Hx Hy) as Hxy.
    pose proof (aligned_compare my mx ey ex Hy Hx) as Hyx.
    rewrite (Z.min_comm ey ex) in Hyx.
    unfold SFltb, SFcompare.
    change (Pos.compare_cont Eq) with Pos.compare.
    destruct sx, sy; cbn [cond_Zopp].
    + (* both negative *)
      rewrite (Z.compare_antisym ey ex), (Pos.compare_antisym my mx) in Hyx.
      replace (- Zpos (fst (shl_align mx ex (Z.min ex ey)))
               - - Zpos (fst (shl_align my ey (Z.min ex ey))))
        with (Zpos (fst (shl_align my ey (Z.min ex ey)))
              - Zpos (fst (shl_align mx ex (Z.min ex ey)))) by lia.
      rewrite Hyx.
      destruct (ey ?= ex); simpl; try reflexivity;
        destruct (my ?= mx)%positive; reflexivity.
    + (* x negative, y positive *) 
      destruct (0 <? _) eqn:E; [| reflexivity]. apply Z.ltb_lt in E. lia.
    + (* x positive, y negative *)
      apply Z.ltb_lt. lia.
    + rewrite Hxy. destruct (ey ?= ex); try reflexivity;
        destruct (my ?= mx)%positive; reflexivity.
Qed.

Lemma SFltb_cotrans (a b c : spec_float) :
  b <> S754_nan ->
  SFltb a c = true -> SFltb a b = true \/ SFltb b c = true.
Proof.
  unfold SFltb.
  destruct a as [sa|sa| |sa ma ea], b as [sb|sb| |sb mb eb], c as [sc|sc| |sc mc ec];
    intros Hb; try congruence; clear Hb;
    simpl; try discriminate; try (now left); try (now right);
    try (destruct sa; simpl; try discriminate; try (now left); try (now right));
    try (destruct sb; simpl; try discriminate; try (now left); try (now right));
    try (destruct sc; simpl; try discriminate; try (now left); try (now right)).
  all: change (Pos.compare_cont Eq) with Pos.compare.
  all: destruct (Z.compare_spec ea eb), (Z.compare_spec eb ec), (Z.compare_spec ea ec);
       try discriminate; try (now left); try (now right); try lia; subst.
  all: destruct (Pos.compare_spec ma mb), (Pos.compare_spec mb mc), (Pos.compare_spec ma mc);
       simpl; try discriminate; try (now left); try (now right); try lia.
Qed.

End BinaryRounding.

(** ** The order of finite numbers *)

Lemma finite_real (f : float) :
  PrimFloat.is_finite f = true -> real_sf (Prim2SF f).
Proof.
  intros H. apply is_finite_not_nan in H. destruct H as [Hn Hi].
  pose proof (is_nan_spec f Hn) as Hn'.
  pose proof (fun s => is_infinity_spec f s Hi) as Hi'.
  pose proof (Prim2SF_valid f) as Hv.
  destruct (Prim2SF f) as [s | s | | s m e]; simpl.
  - exact I.
  - now apply (Hi' s).
  - now apply Hn'.
  - simpl in Hv. unfold bounded in Hv. now apply andb_true_iff in Hv.
Qed.

(** For finite numbers, [a - b] is positive exactly when [b] is below [a]. *)
Lemma sub_sign (a b : float) :
  PrimFloat.is_finite a = true -> PrimFloat.is_finite b = true ->
  (0 <? a - b) = (b <? a).
Proof.
  intros Ha Hb. rewrite !ltb_spec, sub_spec.
  change (Prim2SF 0) with (S754_zero false).
  apply SFsub_sign; apply finite_real; assumption.
Qed.

(** Not being below is transitive through a number that is not NaN. *)
Lemma not_below_trans (a b c : float) :
  PrimFloat.is_nan b = false ->
  (b <? a) = false -> (c <? b) = false -> (c <? a) = false.
Proof.
  intros Hb Hba Hcb. destruct (c <? a) eqn:E; [| reflexivity].
  rewrite !ltb_spec in *.
  destruct (SFltb_cotrans _ (Prim2SF b) _ (is_nan_spec b Hb) E); congruence.
Qed.

Lemma rowTime_finite (StringToNumber : string -> float) (r : Row) :
  (forall k v, r !! k = Some v -> coerced v) ->
  PrimFloat.is_finite (rowTime StringToNumber r) = true.
Proof.
  intros Hr. unfold rowTime, get.
  destruct (r !! "t_k"%string) as [v |] eqn:E; [| reflexivity].
  destruct (Hr _ _ E) as [-> | (n & -> & Hn)]; [reflexivity | exact Hn].
Qed.

Section Ascending.

Variable StringToNumber : string -> float.

Let timed (r : Row) : Prop := PrimFloat.is_finite (rowTime StringToNumber r) = true.

Let ordered (a b : Row) : Prop := timed a /\ timed b /\ not_earlier StringToNumber a b.

Lemma ordered_trans (a b c : Row) : ordered a b -> ordered b c -> ordered a c.
Proof.
  intros (Ha & Hb & Hab) (_ & Hc & Hbc). repeat split; trivial.
  unfold not_earlier in *.
  apply (not_below_trans _ (rowTime StringToNumber b)); trivial.
  apply is_finite_not_nan in Hb. tauto.
Qed.

Lemma sorted_ordered (l : list Row) :
  Forall timed l -> Sorted (not_after StringToNumber) l -> Sorted ordered l.
Proof.
  intros Hl Hs. induction Hs as [| a l Hs IH Hhd]; [constructor |].
  apply Forall_cons in Hl. destruct Hl as [Ha Hl].
  constructor; [exact (IH Hl) |].
  destruct Hhd as [| b l Hab]; constructor.
  apply Forall_cons in Hl. destruct Hl as [Hb _].
  repeat split; trivial.
  unfold not_earlier, not_after, by_t_k, js_sub in *.
  fold (rowTime StringToNumber a) (rowTime StringToNumber b) in Hab.
  now rewrite <- sub_sign.
Qed.

Lemma strongly_sorted_times (l : list Row) :
  Forall timed l -> Sorted (not_after StringToNumber) l ->
  StronglySorted (not_earlier StringToNumber) l.
Proof.
  intros Hl Hs.
  assert (H : StronglySorted ordered l).
  { apply Sorted_StronglySorted; [exact ordered_trans | exact (sorted_ordered l Hl Hs)]. }
  clear Hl Hs. induction H as [| a l _ IH Ha]; constructor; [exact IH |].
  eapply Forall_impl; [exact Ha |]. now intros b (_ & _ & Hb).
Qed.

End Ascending.

(** X20: The series of a point with a sheet of its own is in ascending order of
    time: no row has a time ([t_k], or 0 when missing) below the time of a
    row before it. *)
Theorem series_ascending (StringToNumber : string -> float) (wbLocal : WorkBook)
    (P : string) (sheet : Sheet) :
  In P POINTS ->
  getSheet wbLocal (buildPointKey P) = Some sheet ->
  exists rows,
    obj_get (resolve StringToNumber wbLocal) P = Some rows /\
    StronglySorted (not_earlier StringToNumber) rows.
Proof.
  intros HP Hsheet. rewrite (resolve_get StringToNumber wbLocal P HP).
  unfold seriesOf. rewrite Hsheet. cbn [toArray].
  eexists. split; [reflexivity |].
  apply strongly_sorted_times.
  - apply Forall_forall. intros r Hr.
    apply list_elem_of_In, sort_In in Hr.
    unfold coerceRows in Hr. apply in_map_iff in Hr. destruct Hr as (r0 & <- & _).
    apply rowTime_finite. intros k v. apply coerceRow_coerced.
  - apply sort_sorted. intros a b. apply by_t_k_antisym.
Qed.

(** Point A of the sample workbook, whose sheet lists time 2 before time 1. *)
Lemma series_ascending_witness :
  In "A"%string POINTS /\
  (exists sheet, getSheet ownSheetA (buildPointKey "A") = Some sheet) /\
  exists rows,
    obj_get (resolve nonNumericText ownSheetA) "A" = Some rows /\
    map (rowTime nonNumericText) rows = [1; 2] /\
    StronglySorted (not_earlier nonNumericText) rows.
Proof.
  split; [simpl; tauto |]. split; [eexists; reflexivity |].
  destruct (series_ascending nonNumericText ownSheetA "A" _
              ltac:(simpl; tauto) eq_refl) as (rows & H1 & H2).
  exists rows. split; [exact H1 |]. split; [| exact H2].
  assert (H : Some rows = Some [ row [("t_k", VNum 1); ("push_mm_smooth", VNum 4)]%string;
                                 row [("t_k", VNum 2); ("push_mm_smooth", VNull)]%string ])
    by (rewrite <- H1; vm_compute; reflexivity).
  injection H as ->. vm_compute. reflexivity.
Defined.

(** ** Resolving twice *)

Lemma sort_fixed (cmp : Row -> Row -> float) (l : list Row) :
  Sorted (fun a b => (0 <? cmp a b) = false) l -> sort cmp l = l.
Proof.
  unfold sort. induction 1 as [| a l _ IH Hhd]; [reflexivity |].
  simpl. rewrite IH. destruct Hhd as [| b l Hab]; [reflexivity |].
  simpl. now rewrite Hab.
Qed.

(** X21: Normalising and sorting the rows of a series that was itself obtained
    by normalising and sorting a sheet gives the same series back. *)
Theorem series_pipeline_idempotent (StringToNumber : string -> float) (sheet : Sheet) :
  let resolved l := sort (by_t_k StringToNumber) (coerceRows StringToNumber l) in
  resolved (resolved sheet) = resolved sheet.
Proof.
  cbv beta zeta.
  assert (Hfix : coerceRows StringToNumber
                   (sort (by_t_k StringToNumber) (coerceRows StringToNumber sheet))
                 = sort (by_t_k StringToNumber) (coerceRows StringToNumber sheet)).
  { unfold coerceRows at 1. rewrite <- (map_id (sort _ _)) at 2.
    apply map_ext_in. intros r Hr. apply sort_In in Hr.
    unfold coerceRows in Hr. apply in_map_iff in Hr. destruct Hr as (r0 & <- & _).
    apply coerceRow_idem. }
  rewrite Hfix. apply sort_fixed.
  apply sort_sorted. intros a b. apply by_t_k_antisym.
Qed.

(** ** The store over time *)

Lemma handle_store (StringToNumber : string -> float) (st : State) (e : Event) :
  wb (handle StringToNumber st e) =
    match e with Uploaded w => Some w | _ => wb st end /\
  pointSeries (handle StringToNumber st e) =
    match e with Uploaded w => resolve StringToNumber w | _ => pointSeries st end.
Proof.
  destruct e; try (split; reflexivity).
  unfold handle, onKey.
  destruct (String.eqb pressed "ArrowLeft"), (String.eqb pressed "ArrowRight");
    split; reflexivity.
Qed.

Lemma fold_store (StringToNumber : string -> float) (events : list Event)
    (st : State) (last : option WorkBook) :
  wb st = last ->
  pointSeries st = match last with
                   | Some w => resolve StringToNumber w
                   | None => []
                   end ->
  let st' := fold_left (handle StringToNumber) events st in
  let last' := fold_left (fun last e =>
                 match e with Uploaded w => Some w | _ => last end) events last in
  wb st' = last' /\
  pointSeries st' = match last' with
                    | Some w => resolve StringToNumber w
                    | None => []
                    end.
Proof.
  revert st last. induction events as [| e events IH]; intros st last Hwb Hps;
    [now split |].
  cbn [fold_left]. destruct (handle_store StringToNumber st e) as [Hw Hp].
  apply IH.
  - rewrite Hw. destruct e; try exact Hwb. reflexivity.
  - rewrite Hp. destruct e; try exact Hps. reflexivity.
Qed.

(** X22: At every moment the store is the resolution of the workbook uploaded
    last, or empty if none has been: keys, buttons and toggles never touch
    it, and an upload leaves nothing of the uploads before it.  The status
    line reads "Workbook loaded" exactly when there has been an upload. *)
Theorem store_is_last_upload (StringToNumber : string -> float) (events : list Event) :
  let st := run StringToNumber events in
  wb st = last_upload events /\
  pointSeries st = match last_upload events with
                   | Some w => resolve StringToNumber w
                   | None => []
                   end /\
  workbookLoaded st = bool_decide (is_Some (last_upload events)).
Proof.
  cbv zeta.
  destruct (fold_store StringToNumber events initialState None eq_refl eq_refl)
    as [Hwb Hps].
  fold (run StringToNumber events) in Hwb, Hps. fold (last_upload events) in Hwb, Hps.
  split; [exact Hwb |]. split; [exact Hps |].
  unfold workbookLoaded. rewrite Hps.
  destruct (last_upload events) as [w |]; [| reflexivity].
  rewrite resolve_entries. reflexivity.
Qed.
